(** * react-hotkeys: the [HotKeys] component (src/lib/HotKeys.js)

    A shallow embedding of the [HotKeys] React component and of the
    static configuration of its class, together with the properties of
    the component that the specification states.

    The component is thin glue around a [KeyEventManager] singleton.  The
    manager, the [Logger] and the default [ignoreEventsCondition] live in
    modules that [HotKeys.js] only imports; the component is therefore
    modelled against an interface of the manager (a type class), and a
    model of the manager written from the specification is given as one
    instance of it. *)

From Stdlib Require Import ZArith.
From stdpp Require Import base option list strings gmap.

Set Default Proof Using "Type".
Set Warnings "-register-all".
Open Scope string_scope.
Open Scope list_scope.

(** ** JavaScript values *)

(** Name of a key event: the typedef [KeyEventName] of the source. *)
Inductive KeyEventName := keydown | keypress | keyup.

Global Instance KeyEventName_eq_dec : EqDecision KeyEventName.
Proof. solve_decision. Defined.

(** The part of a DOM [KeyboardEvent] the library looks at: the key, the
    element the event originates from and the time it was created. *)
Record KeyboardEvent := {
  key : string;
  targetTagName : string;
  targetIsContentEditable : bool;
  timeStamp : N;
}.

(** Functions that can end up in the class property
    [HotKeys.ignoreEventsCondition]: the static method the class body
    declares, the function imported from [./lib/ignoreEventsCondition], or
    any function of the user.  The first two are different function
    objects, so they are kept apart. *)
Inductive JsFunction :=
  | HotKeys_ignoreEventsCondition
  | lib_ignoreEventsCondition
  | UserFunction (f : KeyboardEvent → bool).

Inductive JsVal :=
  | JsUndefined
  | JsNull
  | JsBool (b : bool)
  | JsNumber (n : Z)
  | JsString (s : string)
  | JsFn (f : JsFunction).

(** [ToBoolean]: what [if (v)] tests. *)
Definition truthy (v : JsVal) : bool :=
  match v with
  | JsUndefined | JsNull => false
  | JsBool b => b
  | JsNumber n => negb (n =? 0)%Z
  | JsString s => negb (String.eqb s "")
  | JsFn _ => true
  end.

(** A plain object: own enumerable properties by name. *)
Abbreviation JsObject := (gmap string JsVal).

(** [o.k]: a property that is absent reads as [undefined]. *)
Definition get (o : JsObject) (k : string) : JsVal := default JsUndefined (o !! k).

(** [{ ...a, ...b }]: the properties of [b] win. *)
Definition spread (a b : JsObject) : JsObject := b ∪ a.

(** ** The imported default predicate *)

Definition lowercase_ascii (c : Ascii.ascii) : Ascii.ascii :=
  let n := Ascii.nat_of_ascii c in
  if (65 <=? n)%nat && (n <=? 90)%nat then Ascii.ascii_of_nat (n + 32) else c.

Fixpoint toLowerCase (s : string) : string :=
  match s with
  | EmptyString => EmptyString
  | String c r => String (lowercase_ascii c) (toLowerCase r)
  end.

(** Modelled from the spec: the default export of
    [./lib/ignoreEventsCondition], which [HotKeys.js] imports but which is
    not part of the sources at hand.  The specification describes it as the
    filter that "ignores events originating from editable form fields"
    (contentEditable and input fields). *)
Definition ignoreEventsCondition (event : KeyboardEvent) : bool :=
  bool_decide (toLowerCase (targetTagName event) ∈ ["input"; "select"; "textarea"])
  || targetIsContentEditable event.

(** Calling a function value with one keyboard event. *)
Definition apply_fn (f : JsFunction) (event : KeyboardEvent) : bool :=
  match f with
  | HotKeys_ignoreEventsCondition => ignoreEventsCondition event
  | lib_ignoreEventsCondition => ignoreEventsCondition event
  | UserFunction g => g event
  end.

(** [v(event)]: a [TypeError] ([None]) when [v] is not callable. *)
Definition call (v : JsVal) (event : KeyboardEvent) : option bool :=
  match v with
  | JsFn f => Some (apply_fn f event)
  | _ => None
  end.

(** ** Static side of the class *)

Module Static.

(** The static properties of [HotKeys] that the code reads or assigns. *)
Record t := {
  ignoreEventsCondition : JsVal;
  configuration : JsObject;
  defaultKeyEvent : KeyEventName;
}.

(** The class as its body declares it. *)
Definition initial : t := {|
  ignoreEventsCondition := JsFn HotKeys_ignoreEventsCondition;
  configuration := {[ "logLevel" := JsString "warn" ]};
  defaultKeyEvent := keypress;
|}.

Definition setIgnoreEventsCondition (func : JsVal) (cls : t) : t :=
  {| ignoreEventsCondition := func;
     configuration := configuration cls;
     defaultKeyEvent := defaultKeyEvent cls |}.

Definition resetIgnoreEventsCondition (cls : t) : t :=
  {| ignoreEventsCondition := JsFn lib_ignoreEventsCondition;
     configuration := configuration cls;
     defaultKeyEvent := defaultKeyEvent cls |}.

(** [HotKeys.ignoreEventsCondition(event)]: calls whatever the property
    holds at that time. *)
Definition call_ignoreEventsCondition (cls : t) (event : KeyboardEvent) : option bool :=
  call (ignoreEventsCondition cls) event.

(** What [configure] can be called with: nothing (the default parameter
    [{}] applies), [null], or an object. *)
Inductive ConfigureArg :=
  | ArgOmitted
  | ArgNull
  | ArgObject (configuration : JsObject).

(** [configure(configuration = {})].  Destructuring [null] is a
    [TypeError], the only way the function throws ([None]). *)
Definition configure (arg : ConfigureArg) (cls : t) : option t :=
  match arg with
  | ArgNull => None
  | _ =>
    let configuration' :=
      match arg with ArgObject o => o | _ => ∅ end in
    let ignoreEventsFilter := get configuration' "ignoreEventsFilter" in
    let cls1 :=
      if truthy ignoreEventsFilter
      then setIgnoreEventsCondition ignoreEventsFilter cls
      else cls in
    Some {| ignoreEventsCondition := ignoreEventsCondition cls1;
            configuration := spread (configuration cls1) configuration';
            defaultKeyEvent := defaultKeyEvent cls1 |}
  end.

End Static.

(** ** Data handed to the manager *)

Definition FocusTreeId := nat.
Definition ComponentIndex := nat.
Definition ActionName := string.

(** A combo: the keys pressed together and the event it fires on.  A
    matcher given as a bare key sequence names no event; the
    [defaultKeyEvent] option of the registration applies then. *)
Record Combo := {
  combo_keys : list string;
  combo_event : option KeyEventName;
}.

(** The [KeyEventMatcher] of the source, as the data model describes it: a
    single combo, an ordered list of combos with the longest pause allowed
    between two of them, or alternatives. *)
Inductive KeySequencePattern :=
  | Single (combo : Combo)
  | Sequence (combos : list Combo) (threshold : N)
  | Alternatives (patterns : list KeySequencePattern).

(** A handler of the user: an opaque function of a keyboard event, known by
    its identity only. *)
Inductive HandlerFunction := Handler (name : string).

Global Instance HandlerFunction_eq_dec : EqDecision HandlerFunction.
Proof. solve_decision. Defined.

(** The two props are objects; the order of their properties is the order
    of declaration. *)
Definition KeyMap := list (ActionName * KeySequencePattern).
Definition Handlers := list (ActionName * HandlerFunction).

(** What [_getFocusOptions] and [_getEventOptions] build. *)
Record FocusOptions := { focus_defaultKeyEvent : KeyEventName }.
Record EventOptions := { event_ignoreEventsCondition : JsVal }.

(** ** The manager, as the component sees it *)

(** The methods of [KeyEventManager] that [HotKeys.js] calls, over a state
    [M] of the singleton.  An id the component has not received yet is
    [undefined] ([None]).  [getInstance] is given the level of the fresh
    [Logger]. *)
Class KeyEventManager (M : Type) := {
  getInstance : JsVal → M → M;
  handleFocus : KeyMap → Handlers → FocusOptions → M → (FocusTreeId * ComponentIndex) * M;
  updateComponent :
    option FocusTreeId → option ComponentIndex → KeyMap → Handlers → FocusOptions → M → M;
  handleBlur : option FocusTreeId → option ComponentIndex → M → bool * M;
  handleKeyDown :
    KeyboardEvent → option FocusTreeId → option ComponentIndex → EventOptions → M → bool * M;
  handleKeyPress :
    KeyboardEvent → option FocusTreeId → option ComponentIndex → EventOptions → M → bool * M;
  handleKeyUp :
    KeyboardEvent → option FocusTreeId → option ComponentIndex → EventOptions → M → bool * M;
}.

(** The manager method behind each kind of key event. *)
Definition handleKey `{KeyEventManager M} (name : KeyEventName) :=
  match name with
  | keydown => handleKeyDown
  | keypress => handleKeyPress
  | keyup => handleKeyUp
  end.

(** ** The component *)

(** A function prop of the user ([onFocus], [onBlur]), known by its
    identity. *)
Inductive Callback := UserCallback (name : string).

Record Props := {
  keyMap : KeyMap;
  handlers : Handlers;
  onFocus : option Callback;
  onBlur : option Callback;
}.

(** The instance: its props and the three private fields, each [undefined]
    until first assigned. *)
Record HotKeys := {
  props : Props;
  _focusTreeIds : option (list FocusTreeId);
  _componentIndex : option ComponentIndex;
  _focused : option bool;
}.

Definition mount (p : Props) : HotKeys :=
  {| props := p; _focusTreeIds := None; _componentIndex := None; _focused := None |}.

Definition set_props (p : Props) (this : HotKeys) : HotKeys :=
  {| props := p; _focusTreeIds := _focusTreeIds this;
     _componentIndex := _componentIndex this; _focused := _focused this |}.

Definition set_focusTreeIds (v : option (list FocusTreeId)) (this : HotKeys) : HotKeys :=
  {| props := props this; _focusTreeIds := v;
     _componentIndex := _componentIndex this; _focused := _focused this |}.

Definition set_componentIndex (v : option ComponentIndex) (this : HotKeys) : HotKeys :=
  {| props := props this; _focusTreeIds := _focusTreeIds this;
     _componentIndex := v; _focused := _focused this |}.

Definition set_focused (v : option bool) (this : HotKeys) : HotKeys :=
  {| props := props this; _focusTreeIds := _focusTreeIds this;
     _componentIndex := _componentIndex this; _focused := v |}.

(** Everything the component does to the outside, in the order it does
    it: calls of function props and calls of the manager. *)
Inductive Call :=
  | CallProp (f : Callback) (args : list JsVal)
  | GetInstance (logLevel : JsVal)
  | HandleFocus (keyMap : KeyMap) (handlers : Handlers) (options : FocusOptions)
  | UpdateComponent (focusTreeId : option FocusTreeId) (componentIndex : option ComponentIndex)
      (keyMap : KeyMap) (handlers : Handlers) (options : FocusOptions)
  | HandleBlur (focusTreeId : option FocusTreeId) (componentIndex : option ComponentIndex)
  | HandleKey (name : KeyEventName) (event : KeyboardEvent)
      (focusTreeId : option FocusTreeId) (componentIndex : option ComponentIndex)
      (options : EventOptions).

(** What all instances share: the class, the singleton and the record of
    calls. *)
Record World (M : Type) := {
  cls : Static.t;
  manager : M;
  trace : list Call;
}.
Arguments cls {M} _.
Arguments manager {M} _.
Arguments trace {M} _.

Definition boot {M} (m : M) : World M :=
  {| cls := Static.initial; manager := m; trace := [] |}.

(** A method: it may change the instance and the world. *)
Definition Method (M A : Type) : Type := HotKeys * World M → A * (HotKeys * World M).

Definition ret {M A} (a : A) : Method M A := λ s, (a, s).

Definition bind {M A B} (c : Method M A) (k : A → Method M B) : Method M B :=
  λ s, let '(a, s') := c s in k a s'.

Notation "'do' x <- c ; k" := (bind c (λ x, k))
  (at level 10, x pattern, c at level 100, k at level 200).
Notation "c ;; k" := (bind c (λ _, k))
  (at level 100, k at level 200, right associativity).

Definition when {M} (b : bool) (c : Method M unit) : Method M unit :=
  if b then c else ret tt.

Definition read {M A} (f : HotKeys → A) : Method M A := λ s, (f s.1, s).

Definition assign {M} (f : HotKeys → HotKeys) : Method M unit := λ s, (tt, (f s.1, s.2)).

Definition read_class {M A} (f : Static.t → A) : Method M A := λ s, (f (cls s.2), s).

Definition emit {M} (c : Call) : Method M unit :=
  λ s, (tt, (s.1, {| cls := cls s.2; manager := manager s.2; trace := trace s.2 ++ [c] |})).

(** A call of the singleton: its state changes, its result comes back. *)
Definition on_manager {M A} (f : M → A * M) : Method M A :=
  λ s, let '(a, m) := f (manager s.2) in
       (a, (s.1, {| cls := cls s.2; manager := m; trace := trace s.2 |})).

(** Falsy values of the flag [_focused]: [undefined] and [false]. *)
Definition flag_set (v : option bool) : bool := default false v.

Section Component.
Context `{KeyEventManager M}.

(** [this.props.f(...arguments)]. *)
Definition call_prop (f : Callback) (args : list JsVal) : Method M unit :=
  emit (CallProp f args).

(** [getKeyEventManager]: the singleton, asked for with a fresh logger of
    the configured level. *)
Definition getKeyEventManager : Method M unit :=
  do level <- read_class (λ c, get (Static.configuration c) "logLevel");
  emit (GetInstance level);;
  on_manager (λ m, (tt, getInstance level m)).

Definition _focusTreeIdsPush (componentIndex : FocusTreeId) : Method M unit :=
  do ids <- read _focusTreeIds;
  when (negb (bool_decide (is_Some ids))) (assign (set_focusTreeIds (Some [])));;
  assign (λ this, set_focusTreeIds ((λ l, l ++ [componentIndex]) <$> _focusTreeIds this) this).

Definition _focusTreeIdsShift : Method M unit :=
  do ids <- read _focusTreeIds;
  when (bool_decide (is_Some ids))
    (assign (λ this, set_focusTreeIds (tail <$> _focusTreeIds this) this)).

Definition _getFocusTreeId : Method M (option FocusTreeId) :=
  do ids <- read _focusTreeIds;
  ret (ids ≫= head).

Definition _getFocusOptions : Method M FocusOptions :=
  do d <- read_class Static.defaultKeyEvent;
  ret {| focus_defaultKeyEvent := d |}.

Definition _getEventOptions : Method M EventOptions :=
  do c <- read_class Static.ignoreEventsCondition;
  ret {| event_ignoreEventsCondition := c |}.

Definition componentWillReceiveProps (nextProps : Props) : Method M unit :=
  do focused <- read _focused;
  when (flag_set focused)
    (getKeyEventManager;;
     do focusTreeId <- _getFocusTreeId;
     do componentIndex <- read _componentIndex;
     do options <- _getFocusOptions;
     emit (UpdateComponent focusTreeId componentIndex
             (keyMap nextProps) (handlers nextProps) options);;
     on_manager (λ m, (tt, updateComponent focusTreeId componentIndex
                             (keyMap nextProps) (handlers nextProps) options m))).

Definition _handleFocus (arguments : list JsVal) : Method M unit :=
  do p <- read props;
  match onFocus p with
  | Some f => call_prop f arguments
  | None => ret tt
  end;;
  getKeyEventManager;;
  do p <- read props;
  do options <- _getFocusOptions;
  emit (HandleFocus (keyMap p) (handlers p) options);;
  do ids <- on_manager (handleFocus (keyMap p) (handlers p) options);
  let focusTreeId := ids.1 in
  let componentIndex := ids.2 in
  assign (set_componentIndex (Some componentIndex));;
  _focusTreeIdsPush focusTreeId;;
  assign (set_focused (Some true)).

Definition _handleBlur (arguments : list JsVal) : Method M unit :=
  do p <- read props;
  match onBlur p with
  | Some f => call_prop f arguments
  | None => ret tt
  end;;
  getKeyEventManager;;
  do focusTreeId <- _getFocusTreeId;
  do componentIndex <- read _componentIndex;
  emit (HandleBlur focusTreeId componentIndex);;
  do retainCurrentFocusTreeId <- on_manager (handleBlur focusTreeId componentIndex);
  when (negb retainCurrentFocusTreeId) _focusTreeIdsShift;;
  assign (set_focused (Some false)).

Definition componentWillUnmount : Method M unit := _handleBlur [].

Definition _handleKeyDown (event : KeyboardEvent) : Method M unit :=
  getKeyEventManager;;
  do focusTreeId <- _getFocusTreeId;
  do componentIndex <- read _componentIndex;
  do options <- _getEventOptions;
  emit (HandleKey keydown event focusTreeId componentIndex options);;
  do discardFocusTreeId <-
    on_manager (handleKeyDown event focusTreeId componentIndex options);
  when discardFocusTreeId _focusTreeIdsShift.

Definition _handleKeyPress (event : KeyboardEvent) : Method M unit :=
  getKeyEventManager;;
  do focusTreeId <- _getFocusTreeId;
  do componentIndex <- read _componentIndex;
  do options <- _getEventOptions;
  emit (HandleKey keypress event focusTreeId componentIndex options);;
  do discardFocusTreeId <-
    on_manager (handleKeyPress event focusTreeId componentIndex options);
  when discardFocusTreeId _focusTreeIdsShift.

Definition _handleKeyUp (event : KeyboardEvent) : Method M unit :=
  getKeyEventManager;;
  do focusTreeId <- _getFocusTreeId;
  do componentIndex <- read _componentIndex;
  do options <- _getEventOptions;
  emit (HandleKey keyup event focusTreeId componentIndex options);;
  do discardFocusTreeId <-
    on_manager (handleKeyUp event focusTreeId componentIndex options);
  when discardFocusTreeId _focusTreeIdsShift.

(** The listener [render] attaches for each kind of key event. *)
Definition onKey (name : KeyEventName) : KeyboardEvent → Method M unit :=
  match name with
  | keydown => _handleKeyDown
  | keypress => _handleKeyPress
  | keyup => _handleKeyUp
  end.

End Component.

(** ** The manager of the specification *)

Module Manager.

(** Modelled from the spec: the [ComponentRegistration] of the data
    model, held by [./lib/KeyEventManager], a module that is not part of
    the sources at hand. *)
Record ComponentRegistration := {
  componentIndex : ComponentIndex;
  reg_keyMap : KeyMap;
  reg_handlers : Handlers;
  reg_options : FocusOptions;
}.

(** Modelled from the spec: one focus tree of the Focus Stack of
    [./lib/KeyEventManager]: its registrations in the order they were made
    (outer to inner) and the next index to hand out, so that no index is
    used twice while the tree lives. *)
Record FocusTree := {
  registrations : list ComponentRegistration;
  nextComponentIndex : ComponentIndex;
}.

(** Modelled from the spec: the [KeyHistory] of [./lib/KeyEventManager]:
    the keys held down and the combos completed since the last dispatch
    or reset, oldest first, each with the time it was completed. *)
Record KeyHistory := {
  held : list string;
  completed : list (list string * N);
}.

Definition noHistory : KeyHistory := {| held := []; completed := [] |}.

(** Modelled from the spec: the state of the singleton of
    [./lib/KeyEventManager]: the FocusTreeStack (front = most recently
    focused tree), the registry of the trees, the id of the next tree,
    the KeyHistory, the level of the Logger it was created with ([None]
    until first asked for), the warnings logged and the handlers invoked,
    in order. *)
Record t := {
  focusTreeStack : list FocusTreeId;
  registry : gmap FocusTreeId FocusTree;
  nextFocusTreeId : FocusTreeId;
  keyHistory : KeyHistory;
  logger : option JsVal;
  warnings : list string;
  invoked : list (HandlerFunction * KeyboardEvent);
}.

Definition empty : t := {|
  focusTreeStack := []; registry := ∅; nextFocusTreeId := 0;
  keyHistory := noHistory; logger := None; warnings := []; invoked := [];
|}.

Definition set_stack (s : list FocusTreeId) (m : t) : t :=
  {| focusTreeStack := s; registry := registry m; nextFocusTreeId := nextFocusTreeId m;
     keyHistory := keyHistory m; logger := logger m; warnings := warnings m;
     invoked := invoked m |}.

Definition set_registry (r : gmap FocusTreeId FocusTree) (m : t) : t :=
  {| focusTreeStack := focusTreeStack m; registry := r;
     nextFocusTreeId := nextFocusTreeId m; keyHistory := keyHistory m;
     logger := logger m; warnings := warnings m; invoked := invoked m |}.

Definition set_nextFocusTreeId (n : FocusTreeId) (m : t) : t :=
  {| focusTreeStack := focusTreeStack m; registry := registry m; nextFocusTreeId := n;
     keyHistory := keyHistory m; logger := logger m; warnings := warnings m;
     invoked := invoked m |}.

Definition set_keyHistory (h : KeyHistory) (m : t) : t :=
  {| focusTreeStack := focusTreeStack m; registry := registry m;
     nextFocusTreeId := nextFocusTreeId m; keyHistory := h; logger := logger m;
     warnings := warnings m; invoked := invoked m |}.

Definition set_logger (l : option JsVal) (m : t) : t :=
  {| focusTreeStack := focusTreeStack m; registry := registry m;
     nextFocusTreeId := nextFocusTreeId m; keyHistory := keyHistory m; logger := l;
     warnings := warnings m; invoked := invoked m |}.

Definition invoke (h : HandlerFunction) (event : KeyboardEvent) (m : t) : t :=
  {| focusTreeStack := focusTreeStack m; registry := registry m;
     nextFocusTreeId := nextFocusTreeId m; keyHistory := keyHistory m;
     logger := logger m; warnings := warnings m;
     invoked := invoked m ++ [(h, event)] |}.

(** Modelled from the spec: the Logger of [./lib/Logger], "leveled
    diagnostic output" with the levels none, warn and debug; a warning is
    put out at the levels warn and debug. *)
Definition warn (msg : string) (m : t) : t :=
  match logger m with
  | Some (JsString "none") => m
  | _ =>
    {| focusTreeStack := focusTreeStack m; registry := registry m;
       nextFocusTreeId := nextFocusTreeId m; keyHistory := keyHistory m;
       logger := logger m; warnings := warnings m ++ [msg]; invoked := invoked m |}
  end.

(** Modelled from the spec: [KeyEventManager.getInstance]: "the singleton
    is created lazily on first access and lives for the process's entire
    lifetime". *)
Definition getInstance (level : JsVal) (m : t) : t :=
  match logger m with
  | Some _ => m
  | None => set_logger (Some level) m
  end.

(** *** Sequence Matcher *)

(** Modelled from the spec: the normal form of a key name in the Sequence
    Matcher of [./lib/KeyEventManager]: "case-insensitive key names
    normalized before comparison", "modifier aliases (e.g., command vs
    meta) that must normalize to one canonical key name". *)
Definition aliases : list (string * string) :=
  [("command", "meta"); ("cmd", "meta"); ("control", "ctrl"); ("option", "alt")].

Definition normalizeKey (k : string) : string :=
  let k := toLowerCase k in
  default k (snd <$> List.find (λ a, String.eqb a.1 k) aliases).

Definition isModifier (k : string) : bool :=
  bool_decide (k ∈ ["shift"; "ctrl"; "alt"; "meta"]).

Definition subset (a b : list string) : bool :=
  forallb (λ k, bool_decide (k ∈ b)) a.

Definition sameKeys (a b : list string) : bool := subset a b && subset b a.

(** A pure modifier+key combo: modifiers and exactly one other key. *)
Definition pureModifierCombo (keys : list string) : bool :=
  existsb isModifier keys
  && Nat.eqb (length (filter (λ k, isModifier k = false) keys)) 1.

Inductive MatchResult := none | partial | complete.

(** Modelled from the spec: the single-combo case of [match] in the
    Sequence Matcher of [./lib/KeyEventManager]: complete "when exactly
    the required key set is down (extra non-modifier keys defeat the match
    unless the pattern is a pure modifier+key combo) and the target
    KeyEventName is the current event's name". *)
Definition matchCombo (h : KeyHistory) (name dflt : KeyEventName) (c : Combo) : bool :=
  let required := normalizeKey <$> combo_keys c in
  let extra := filter (λ k, k ∉ required) (held h) in
  bool_decide (default dflt (combo_event c) = name)
  && subset required (held h)
  && (bool_decide (extra = [])
      || (pureModifierCombo required && forallb (λ k, negb (isModifier k)) extra)).

(** The combos [cs] are the last entries of the completed combos [done],
    both given latest first, no two of them more than [threshold]
    apart. *)
Fixpoint satisfied (threshold : N) (cs : list Combo) (done : list (list string * N))
    (next : option N) : bool :=
  match cs, done with
  | [], _ => true
  | c :: cs', (keys, time) :: done' =>
    sameKeys (normalizeKey <$> combo_keys c) keys
    && match next with
       | Some later => (later - time <=? threshold)%N
       | None => true
       end
    && satisfied threshold cs' done' (Some time)
  | _ :: _, [] => false
  end.

(** Modelled from the spec: the ordered-sequence case of [match] in the
    Sequence Matcher of [./lib/KeyEventManager]: complete "only when its
    combos have been satisfied in order within a bounded inter-key
    timeout; partial when a strict prefix has been satisfied". *)
Definition matchSequence (h : KeyHistory) (name dflt : KeyEventName)
    (cs : list Combo) (threshold : N) : MatchResult :=
  let done := reverse (completed h) in
  let target := default dflt (last cs ≫= combo_event) in
  if bool_decide (cs ≠ []) && bool_decide (target = name)
     && satisfied threshold (reverse cs) done None
  then complete
  else if existsb (λ n, satisfied threshold (reverse (take n cs)) done None)
            (seq 1 (length cs - 1))
  then partial
  else none.

(** Modelled from the spec: [match(history, pattern)] of the Sequence
    Matcher of [./lib/KeyEventManager], with the name of the current event
    and the default event of the registration.  "Alternation patterns
    evaluate each branch independently; the first complete branch wins". *)
Fixpoint match_ (h : KeyHistory) (name dflt : KeyEventName) (p : KeySequencePattern)
    : MatchResult :=
  match p with
  | Single c => if matchCombo h name dflt c then complete else none
  | Sequence cs threshold => matchSequence h name dflt cs threshold
  | Alternatives ps =>
    (fix branches (ps : list KeySequencePattern) : MatchResult :=
       match ps with
       | [] => none
       | q :: ps' =>
         match match_ h name dflt q, branches ps' with
         | complete, _ => complete
         | _, complete => complete
         | partial, _ => partial
         | _, r => r
         end
       end) ps
  end.

(** Whether the branch that completes [p] is an ordered sequence: such a
    match resets the history entirely. *)
Fixpoint completedBySequence (h : KeyHistory) (name dflt : KeyEventName)
    (p : KeySequencePattern) : bool :=
  match p with
  | Single _ => false
  | Sequence _ _ => true
  | Alternatives ps =>
    (fix branches (ps : list KeySequencePattern) : bool :=
       match ps with
       | [] => false
       | q :: ps' =>
         match match_ h name dflt q with
         | complete => completedBySequence h name dflt q
         | _ => branches ps'
         end
       end) ps
  end.

(** *** Binding Registry *)

Definition wellFormedCombo (c : Combo) : bool :=
  negb (bool_decide (combo_keys c = []))
  && forallb (λ k, negb (String.eqb k "")) (combo_keys c).

(** Modelled from the spec: what the Binding Registry of
    [./lib/KeyEventManager] accepts at registration: a pattern "that
    cannot be parsed/normalized" makes its action be skipped.  Patterns
    come parsed here; one is malformed when a combo has no key or a key
    without a name. *)
Fixpoint wellFormed (p : KeySequencePattern) : bool :=
  match p with
  | Single c => wellFormedCombo c
  | Sequence cs _ => negb (bool_decide (cs = [])) && forallb wellFormedCombo cs
  | Alternatives ps => forallb wellFormed ps
  end.

Definition accepted (keyMap : KeyMap) : KeyMap :=
  filter (λ b, wellFormed b.2 = true) keyMap.

Definition warnMalformed (keyMap : KeyMap) (m : t) : t :=
  foldl (λ m b, if wellFormed b.2 then m else warn ("malformed pattern: " +:+ b.1) m)
    m keyMap.

Definition lookupAction {A} (a : ActionName) (l : list (ActionName * A)) : option A :=
  snd <$> List.find (λ b, String.eqb b.1 a) l.

(** The first occurrence of each name, in order. *)
Fixpoint distinct (seen l : list string) : list string :=
  match l with
  | [] => []
  | a :: l' =>
    if bool_decide (a ∈ seen) then distinct seen l' else a :: distinct (a :: seen) l'
  end.

Definition firstSome {A B} (f : A → option B) (l : list A) : option B := head (omap f l).

Record Binding := {
  action : ActionName;
  pattern : KeySequencePattern;
  handler : HandlerFunction;
  origin : ComponentIndex;
}.

(** Modelled from the spec: [resolveBindings] of the Binding Registry of
    [./lib/KeyEventManager], on the registrations a dispatch sees,
    innermost first: "handlers and key-maps are resolved independently by
    action name, then combined"; the innermost pattern of an action
    shadows the outer ones, and the innermost handler given for the action
    is the one bound. *)
Definition resolveBindings (chain : list ComponentRegistration) : list Binding :=
  let actions := distinct [] (chain ≫= λ r, fst <$> reg_keyMap r) in
  omap (λ a,
      match firstSome (λ r, lookupAction a (reg_keyMap r)) chain,
            firstSome (λ r, (λ h, (h, componentIndex r)) <$> lookupAction a (reg_handlers r))
              chain with
      | Some p, Some hi =>
        Some {| action := a; pattern := p; handler := hi.1; origin := hi.2 |}
      | _, _ => None
      end) actions.

(** *** Focus Stack and Manager *)

Definition newTree : FocusTree := {| registrations := []; nextComponentIndex := 0 |}.

Definition findTree (focusTreeId : option FocusTreeId) (m : t) : option (FocusTreeId * FocusTree) :=
  f ← focusTreeId; tree ← registry m !! f; Some (f, tree).

Definition registered (componentIndex' : option ComponentIndex) (tree : FocusTree) : bool :=
  match componentIndex' with
  | Some c => existsb (λ r, Nat.eqb (componentIndex r) c) (registrations tree)
  | None => false
  end.

(** Modelled from the spec: [handleFocus] of [./lib/KeyEventManager]: "if
    no tree is on top ..., allocate a new FocusTreeId and push it;
    otherwise reuse the top id.  Allocate a new ComponentIndex, store the
    ComponentRegistration, return both ids.  Side effect: resets
    KeyHistory for this tree if it was newly created."  The manager is
    told nothing of the DOM, so a tree is on top when the stack is not
    empty. *)
Definition handleFocus (keyMap : KeyMap) (handlers : Handlers) (options : FocusOptions)
    (m : t) : (FocusTreeId * ComponentIndex) * t :=
  let focusTreeId := default (nextFocusTreeId m) (head (focusTreeStack m)) in
  let m1 :=
    match focusTreeStack m with
    | _ :: _ => m
    | [] =>
      set_keyHistory noHistory
        (set_nextFocusTreeId (S focusTreeId)
           (set_registry (<[focusTreeId := newTree]> (registry m))
              (set_stack [focusTreeId] m)))
    end in
  let tree := default newTree (registry m1 !! focusTreeId) in
  let index := nextComponentIndex tree in
  let registration :=
    {| componentIndex := index; reg_keyMap := accepted keyMap;
       reg_handlers := handlers; reg_options := options |} in
  let tree' :=
    {| registrations := registrations tree ++ [registration];
       nextComponentIndex := S index |} in
  ((focusTreeId, index),
   warnMalformed keyMap (set_registry (<[focusTreeId := tree']> (registry m1)) m1)).

(** Modelled from the spec: [updateComponent] of [./lib/KeyEventManager]:
    "replaces the stored keyMap/handlers for that registration; fails
    silently (logs a warning) if the ids are unknown". *)
Definition updateComponent (focusTreeId : option FocusTreeId)
    (componentIndex' : option ComponentIndex) (keyMap : KeyMap) (handlers : Handlers)
    (options : FocusOptions) (m : t) : t :=
  match findTree focusTreeId m with
  | Some (f, tree) =>
    if registered componentIndex' tree then
      let replace r :=
        if bool_decide (Some (componentIndex r) = componentIndex') then
          {| componentIndex := componentIndex r; reg_keyMap := accepted keyMap;
             reg_handlers := handlers; reg_options := options |}
        else r in
      let tree' :=
        {| registrations := replace <$> registrations tree;
           nextComponentIndex := nextComponentIndex tree |} in
      warnMalformed keyMap (set_registry (<[f := tree']> (registry m)) m)
    else warn "updateComponent: unknown component" m
  | None => warn "updateComponent: unknown focus tree" m
  end.

(** Modelled from the spec: [handleBlur] of [./lib/KeyEventManager]:
    "removes the registration; returns true if other registrations remain
    in the same tree ..., false if this was the last registration (...
    Manager pops the tree from the stack)".  Unknown ids are "tolerated
    (warn-and-no-op)"; the KeyHistory is cleared "on focus change". *)
Definition handleBlur (focusTreeId : option FocusTreeId)
    (componentIndex' : option ComponentIndex) (m : t) : bool * t :=
  match findTree focusTreeId m with
  | Some (f, tree) =>
    let m1 :=
      if registered componentIndex' tree then m
      else warn "handleBlur: unknown component" m in
    let remaining :=
      filter (λ r, Some (componentIndex r) ≠ componentIndex') (registrations tree) in
    match remaining with
    | [] =>
      (false,
       set_keyHistory noHistory
         (set_stack (filter (λ i, i ≠ f) (focusTreeStack m1))
            (set_registry (delete f (registry m1)) m1)))
    | _ :: _ =>
      let tree' :=
        {| registrations := remaining; nextComponentIndex := nextComponentIndex tree |} in
      (true, set_registry (<[f := tree']> (registry m1)) m1)
    end
  | None => (false, warn "handleBlur: unknown focus tree" m)
  end.

(** The registrations a dispatch from [c] sees, innermost first: that of
    [c] and those made before it in the tree. *)
Fixpoint chainFrom (c : ComponentIndex) (regs outer : list ComponentRegistration)
    : option (list ComponentRegistration) :=
  match regs with
  | [] => None
  | r :: regs' =>
    if Nat.eqb (componentIndex r) c then Some (r :: outer)
    else chainFrom c regs' (r :: outer)
  end.

(** Step 3 of the dispatch routine. *)
Definition record (name dflt : KeyEventName) (event : KeyboardEvent) (h : KeyHistory)
    : KeyHistory :=
  let k := normalizeKey (key event) in
  let held' :=
    match name with
    | keydown => if bool_decide (k ∈ held h) then held h else held h ++ [k]
    | keypress => held h
    | keyup => filter (λ k', k' ≠ k) (held h)
    end in
  {| held := held';
     completed :=
       if bool_decide (name = dflt) then completed h ++ [(held', timeStamp event)]
       else completed h |}.

Definition isComplete (r : MatchResult) : bool :=
  match r with complete => true | _ => false end.

Definition isPartial (r : MatchResult) : bool :=
  match r with partial => true | _ => false end.

(** Modelled from the spec: the central dispatch routine
    [handleKeyDown/handleKeyPress/handleKeyUp] of
    [./lib/KeyEventManager], steps 1 to 7 of the specification.  A
    predicate that cannot be called and a registry miss degrade to "no
    dispatch"; the miss is what makes the routine return true. *)
Definition dispatch (name : KeyEventName) (event : KeyboardEvent)
    (focusTreeId : option FocusTreeId) (componentIndex' : option ComponentIndex)
    (options : EventOptions) (m : t) : bool * t :=
  match call (event_ignoreEventsCondition options) event with
  | Some false =>
    match focusTreeId with
    | None => (false, m)
    | Some f =>
      match tree ← registry m !! f; c ← componentIndex'; chainFrom c (registrations tree) [] with
      | Some ((own :: _) as chain) =>
        let dflt := focus_defaultKeyEvent (reg_options own) in
        let h := record name dflt event (keyHistory m) in
        let bindings := resolveBindings chain in
        match List.find (λ b, isComplete (match_ h name dflt (pattern b))) bindings with
        | Some b =>
          let h' :=
            if completedBySequence h name dflt (pattern b) then noHistory
            else {| held := held h; completed := [] |} in
          (false, set_keyHistory h' (invoke (handler b) event m))
        | None =>
          let h' :=
            if bool_decide (name = keyup) && bool_decide (held h = [])
               && negb (existsb (λ b, isPartial (match_ h name dflt (pattern b))) bindings)
            then noHistory else h in
          (false, set_keyHistory h' m)
        end
      | _ => (true, warn "dispatch: unknown focus tree or component" m)
      end
    end
  | _ => (false, m)
  end.

End Manager.

(** The manager of the specification behind the interface of the
    component. *)
Global Instance specified_manager : KeyEventManager Manager.t := {|
  getInstance := Manager.getInstance;
  handleFocus := Manager.handleFocus;
  updateComponent := Manager.updateComponent;
  handleBlur := Manager.handleBlur;
  handleKeyDown := Manager.dispatch keydown;
  handleKeyPress := Manager.dispatch keypress;
  handleKeyUp := Manager.dispatch keyup;
|}.

(** ** Components at work *)

(** The outcome of a method: the instance and the world it leaves. *)
Definition after {M A} (c : Method M A) (this : HotKeys) (w : World M) : HotKeys * World M :=
  (c (this, w)).2.

(** What React and the focus trap make happen to a mounted component.  A
    render with new props calls [componentWillReceiveProps] and then
    replaces [this.props]. *)
Inductive Happening :=
  | Focus (arguments : list JsVal)
  | Blur (arguments : list JsVal)
  | KeyEvent (name : KeyEventName) (event : KeyboardEvent)
  | Render (nextProps : Props)
  | Unmount.

Definition happen `{KeyEventManager M} (h : Happening) : Method M unit :=
  match h with
  | Focus arguments => _handleFocus arguments
  | Blur arguments => _handleBlur arguments
  | KeyEvent name event => onKey name event
  | Render nextProps => componentWillReceiveProps nextProps;; assign (set_props nextProps)
  | Unmount => componentWillUnmount
  end.

(** The mounted components, by position, and the world they share. *)
Record Page (M : Type) := {
  components : list HotKeys;
  world : World M;
}.
Arguments components {M} _.
Arguments world {M} _.

Definition step `{KeyEventManager M} (h : nat * Happening) (pg : Page M) : Page M :=
  match components pg !! h.1 with
  | Some this =>
    let r := after (happen h.2) this (world pg) in
    {| components := <[h.1 := r.1]> (components pg); world := r.2 |}
  | None => pg
  end.

Fixpoint run `{KeyEventManager M} (hs : list (nat * Happening)) (pg : Page M) : Page M :=
  match hs with
  | [] => pg
  | h :: hs' => run hs' (step h pg)
  end.

(** [HotKeys.configure] and the two setters act on the class alone. *)
Definition configure {M} (arg : Static.ConfigureArg) (w : World M) : option (World M) :=
  (λ c, {| cls := c; manager := manager w; trace := trace w |}) <$> Static.configure arg (cls w).

(** * Properties *)

(** ** What a method reads *)

(** The level [getKeyEventManager] creates the logger with. *)
Definition logLevel {M} (w : World M) : JsVal := get (Static.configuration (cls w)) "logLevel".

(** The singleton a method of the component talks to. *)
Definition singleton `{KeyEventManager M} (w : World M) : M := getInstance (logLevel w) (manager w).

Definition focusOptions {M} (w : World M) : FocusOptions :=
  {| focus_defaultKeyEvent := Static.defaultKeyEvent (cls w) |}.

Definition eventOptions {M} (w : World M) : EventOptions :=
  {| event_ignoreEventsCondition := Static.ignoreEventsCondition (cls w) |}.

(** The id [_getFocusTreeId] returns: the front of the cached ids. *)
Definition front (this : HotKeys) : option FocusTreeId := _focusTreeIds this ≫= head.

(** The cached ids after [_focusTreeIdsShift]. *)
Definition shifted (this : HotKeys) : option (list FocusTreeId) := tail <$> _focusTreeIds this.

(** The cached ids after [_focusTreeIdsPush]. *)
Definition pushed (id : FocusTreeId) (this : HotKeys) : option (list FocusTreeId) :=
  Some (default [] (_focusTreeIds this) ++ [id]).

(** The call of a function prop, when the prop is given. *)
Definition propCall (f : option Callback) (arguments : list JsVal) : list Call :=
  match f with
  | Some f => [CallProp f arguments]
  | None => []
  end.

Section Equations.
Context `{KeyEventManager M}.
Implicit Types (this : HotKeys) (w : World M).

Lemma _focusTreeIdsShift_eq this w :
  _focusTreeIdsShift (this, w) = (tt, (set_focusTreeIds (shifted this) this, w)).
Proof. destruct this as [p [ids|] c f]; reflexivity. Qed.

Lemma _focusTreeIdsPush_eq id this w :
  _focusTreeIdsPush id (this, w) = (tt, (set_focusTreeIds (pushed id this) this, w)).
Proof. destruct this as [p [ids|] c f]; reflexivity. Qed.

Lemma _getFocusTreeId_eq this w : _getFocusTreeId (this, w) = (front this, (this, w)).
Proof. reflexivity. Qed.

Lemma getKeyEventManager_eq this w :
  getKeyEventManager (this, w)
  = (tt, (this, {| cls := cls w; manager := singleton w;
                   trace := trace w ++ [GetInstance (logLevel w)] |})).
Proof. reflexivity. Qed.

(** A key event: one call of the manager, then a shift if it says so. *)
Lemma onKey_eq name event this w :
  let call := HandleKey name event (front this) (_componentIndex this) (eventOptions w) in
  let r := handleKey name event (front this) (_componentIndex this) (eventOptions w)
             (singleton w) in
  after (onKey name event) this w
  = (if r.1 then set_focusTreeIds (shifted this) this else this,
     {| cls := cls w; manager := r.2;
        trace := trace w ++ [GetInstance (logLevel w); call] |}).
Proof.
  intros call r. subst call r. unfold after.
  destruct name; cbn [onKey handleKey];
    unfold _handleKeyDown, _handleKeyPress, _handleKeyUp, bind, on_manager, when.
  all: cbn -[singleton logLevel _focusTreeIdsShift].
  all: fold (logLevel w); fold (singleton w); fold (front this); fold (eventOptions w).
  all: match goal with
       | |- context [(?f ?e ?a ?b ?c ?d).1] => destruct (f e a b c d) as [[] m]
       end.
  all: cbn [fst snd]; rewrite ?_focusTreeIdsShift_eq; cbn [ret fst snd].
  all: rewrite <- app_assoc; reflexivity.
Qed.

(** Focus: the prop, then one call of the manager, whose ids are kept. *)
Lemma _handleFocus_eq arguments this w :
  let p := props this in
  let r := handleFocus (keyMap p) (handlers p) (focusOptions w) (singleton w) in
  after (_handleFocus arguments) this w
  = ({| props := p; _focusTreeIds := pushed r.1.1 this;
        _componentIndex := Some r.1.2; _focused := Some true |},
     {| cls := cls w; manager := r.2;
        trace := trace w ++ propCall (onFocus p) arguments
                   ++ [GetInstance (logLevel w);
                       HandleFocus (keyMap p) (handlers p) (focusOptions w)] |}).
Proof.
  intros p r. subst p r. unfold after, _handleFocus, bind, on_manager, call_prop.
  cbn -[singleton logLevel _focusTreeIdsPush].
  destruct (onFocus (props this)) as [f|].
  all: cbn -[singleton logLevel _focusTreeIdsPush].
  all: fold (logLevel w); fold (singleton w); fold (focusOptions w).
  all: destruct (handleFocus _ _ _ (singleton w)) as [[focusTreeId componentIndex] m].
  all: cbn [fst snd]; rewrite _focusTreeIdsPush_eq; cbn.
  all: rewrite <- ?app_assoc; reflexivity.
Qed.

(** Blur: the prop, then one call of the manager, then a shift unless the
    manager says to retain the id. *)
Lemma _handleBlur_eq arguments this w :
  let r := handleBlur (front this) (_componentIndex this) (singleton w) in
  after (_handleBlur arguments) this w
  = (set_focused (Some false)
       (if r.1 then this else set_focusTreeIds (shifted this) this),
     {| cls := cls w; manager := r.2;
        trace := trace w ++ propCall (onBlur (props this)) arguments
                   ++ [GetInstance (logLevel w);
                       HandleBlur (front this) (_componentIndex this)] |}).
Proof.
  intros r. subst r. unfold after, _handleBlur, bind, on_manager, call_prop, when.
  cbn -[singleton logLevel _focusTreeIdsShift].
  destruct (onBlur (props this)) as [f|].
  all: cbn -[singleton logLevel _focusTreeIdsShift].
  all: fold (logLevel w); fold (singleton w); fold (front this).
  all: destruct (handleBlur _ _ (singleton w)) as [[] m].
  all: cbn [fst snd negb]; rewrite ?_focusTreeIdsShift_eq; cbn.
  all: rewrite <- ?app_assoc; reflexivity.
Qed.

(** New props: one call of the manager when focused, nothing otherwise. *)
Lemma componentWillReceiveProps_eq nextProps this w :
  after (componentWillReceiveProps nextProps) this w
  = (this,
     if flag_set (_focused this) then
       {| cls := cls w;
          manager := updateComponent (front this) (_componentIndex this)
                       (keyMap nextProps) (handlers nextProps) (focusOptions w)
                       (singleton w);
          trace := trace w
                     ++ [GetInstance (logLevel w);
                         UpdateComponent (front this) (_componentIndex this)
                           (keyMap nextProps) (handlers nextProps) (focusOptions w)] |}
     else w).
Proof.
  unfold after, componentWillReceiveProps, bind, when, read.
  cbn [fst snd]. destruct (flag_set (_focused this)).
  - cbn. rewrite <- app_assoc. reflexivity.
  - destruct w; reflexivity.
Qed.

End Equations.

(** ** The component and the manager *)

Section Glue.
Context `{KeyEventManager M}.
Implicit Types (this : HotKeys) (w : World M).

(** C2.  On blur the component calls [handleBlur] with its cached id and
    index; it shifts the front entry off its cached ids exactly when that
    call returns false, leaves them as they are when it returns true, and
    its focused flag is false afterwards in both cases. *)
Theorem blur_shifts_unless_retained arguments this w :
  let answer := handleBlur (front this) (_componentIndex this) (singleton w) in
  let this' := (after (_handleBlur arguments) this w).1 in
  manager (after (_handleBlur arguments) this w).2 = answer.2
  ∧ _focusTreeIds this' = (if answer.1 then _focusTreeIds this else shifted this)
  ∧ _focused this' = Some false.
Proof.
  intros answer this'. subst this'. rewrite _handleBlur_eq. fold answer.
  destruct answer.1; repeat split; reflexivity.
Qed.

(** C3.  Each of the three key-event handlers calls the matching method of
    the manager with the cached id and index; the component shifts the
    front entry off its cached ids exactly when that call returns true, and
    when it returns false the cached ids are unchanged; the component index
    is unchanged either way. *)
Theorem key_event_shifts_when_discarded name event this w :
  let answer :=
    handleKey name event (front this) (_componentIndex this) (eventOptions w) (singleton w) in
  let this' := (after (onKey name event) this w).1 in
  manager (after (onKey name event) this w).2 = answer.2
  ∧ _focusTreeIds this' = (if answer.1 then shifted this else _focusTreeIds this)
  ∧ _componentIndex this' = _componentIndex this.
Proof.
  intros answer this'. subst this'. rewrite onKey_eq. fold answer.
  destruct answer.1; repeat split; reflexivity.
Qed.

(** C6.  New props of a focused component make one call of the manager:
    [updateComponent] with the cached id and index, the new keyMap and the
    new handlers; the component itself stays as it is (it is neither
    blurred nor registered again).  New props of a component that is not
    focused cause no call at all: the world is untouched. *)
Theorem new_props_update_focused_component nextProps this w :
  after (componentWillReceiveProps nextProps) this w
  = (this,
     if flag_set (_focused this) then
       {| cls := cls w;
          manager := updateComponent (front this) (_componentIndex this)
                       (keyMap nextProps) (handlers nextProps) (focusOptions w)
                       (singleton w);
          trace := trace w
                     ++ [GetInstance (logLevel w);
                         UpdateComponent (front this) (_componentIndex this)
                           (keyMap nextProps) (handlers nextProps) (focusOptions w)] |}
     else w).
Proof. apply componentWillReceiveProps_eq. Qed.


End Glue.

(** ** The class *)

(** C10.  Whatever was set with [setIgnoreEventsCondition], after
    [resetIgnoreEventsCondition] a call of [HotKeys.ignoreEventsCondition]
    returns what the original default predicate returns for the event, as
    it did on the class when it was declared. *)
Theorem set_then_reset_restores_default (func : JsVal) (cls : Static.t) (event : KeyboardEvent) :
  let cls' := Static.resetIgnoreEventsCondition (Static.setIgnoreEventsCondition func cls) in
  Static.call_ignoreEventsCondition cls' event = Some (ignoreEventsCondition event)
  ∧ Static.call_ignoreEventsCondition cls' event
    = Static.call_ignoreEventsCondition Static.initial event.
Proof. split; reflexivity. Qed.

(** The function objects differ all the same: the reset stores the imported
    function, not the static method the class was declared with. *)
Lemma reset_stores_imported_function (cls : Static.t) :
  Static.ignoreEventsCondition (Static.resetIgnoreEventsCondition cls)
  ≠ Static.ignoreEventsCondition Static.initial.
Proof. discriminate. Qed.

(** The log levels the specification names. *)
Definition validLogLevel (v : JsVal) : Prop :=
  v = JsString "none" ∨ v = JsString "warn" ∨ v = JsString "debug".

(** The claim C5 as the specification has it, for a level [v]: an invalid
    [v] given to [configure] leaves the default ['warn'] in the stored
    configuration. *)
Definition falls_back_to_default (v : JsVal) : Prop :=
  ¬ validLogLevel v →
  ∃ cls', Static.configure (Static.ArgObject {[ "logLevel" := v ]}) Static.initial = Some cls'
          ∧ get (Static.configuration cls') "logLevel" = JsString "warn".

(** C5, refuted as stated: ['verbose'] is no log level, and after
    [configure({logLevel: 'verbose'})] the stored level is ['verbose'], not
    the default. *)
Lemma invalid_logLevel_is_stored :
  ¬ validLogLevel (JsString "verbose")
  ∧ (λ c, get (Static.configuration c) "logLevel")
      <$> Static.configure (Static.ArgObject {[ "logLevel" := JsString "verbose" ]})
            Static.initial
    = Some (JsString "verbose")
  ∧ ¬ falls_back_to_default (JsString "verbose").
Proof.
  assert (Hinvalid : ¬ validLogLevel (JsString "verbose")).
  { intros [?|[?|?]]; discriminate. }
  assert (Hstored :
    (λ c, get (Static.configuration c) "logLevel")
      <$> Static.configure (Static.ArgObject {[ "logLevel" := JsString "verbose" ]})
            Static.initial
    = Some (JsString "verbose")).
  { vm_compute. reflexivity. }
  split; [exact Hinvalid|]. split; [exact Hstored|].
  intros Hclaim. destruct (Hclaim Hinvalid) as (cls' & Hcls' & Hlevel).
  rewrite Hcls' in Hstored. cbn in Hstored. congruence.
Qed.

(** C5, as the code has it.  [configure] validates nothing: given an
    object it does not throw, it calls neither the manager nor anything
    else, and the stored configuration is the old one with every property
    of the object written over it as given; so after
    [configure({logLevel: v})] the stored level is [v], whatever [v] is. *)
Theorem configure_stores_values_as_given {M} (o : JsObject) (v : JsVal) (w : World M) :
  ∃ w', configure (Static.ArgObject o) w = Some w'
        ∧ manager w' = manager w
        ∧ trace w' = trace w
        ∧ Static.configuration (cls w') = o ∪ Static.configuration (cls w)
        ∧ (∀ k, get (Static.configuration (cls w')) k
                = match o !! k with
                  | Some x => x
                  | None => get (Static.configuration (cls w)) k
                  end)
        ∧ ∃ w'', configure (Static.ArgObject {[ "logLevel" := v ]}) w = Some w''
                 ∧ logLevel w'' = v.
Proof.
  assert (Hget : ∀ (o' : JsObject) c k,
    get (spread c o') k = match o' !! k with Some x => x | None => get c k end).
  { intros o' c k. unfold get, spread. rewrite lookup_union.
    destruct (o' !! k), (c !! k); reflexivity. }
  unfold configure, Static.configure. cbn [fmap option_fmap option_map].
  eexists. split; [reflexivity|]. cbn [cls manager trace Static.configuration].
  do 2 (split; [reflexivity|]).
  split; [destruct (truthy _); reflexivity|].
  split; [intros k; destruct (truthy _); apply Hget|].
  eexists. split; [reflexivity|].
  unfold logLevel. cbn [cls Static.configuration]. rewrite Hget.
  cbn. rewrite lookup_singleton_eq. reflexivity.
Qed.

(** ** Runs of a page *)

(** The options of the key-event dispatches among some calls. *)
Definition dispatchOptions (calls : list Call) : list EventOptions :=
  omap (λ c, match c with HandleKey _ _ _ _ o => Some o | _ => None end) calls.

Section Runs.
Context `{KeyEventManager M}.
Implicit Types (this : HotKeys) (w : World M) (pg : Page M).

Lemma after_bind {A B} (c : Method M A) (k : A → Method M B) this w :
  after (bind c k) this w = after (k (c (this, w)).1) (c (this, w)).2.1 (c (this, w)).2.2.
Proof. unfold after, bind. destruct (c (this, w)) as [a [this' w']]. reflexivity. Qed.

Lemma render_eq nextProps this w :
  after (happen (Render nextProps)) this w
  = (set_props nextProps this, (after (componentWillReceiveProps nextProps) this w).2).
Proof.
  cbn [happen]. rewrite after_bind.
  pose proof (componentWillReceiveProps_eq nextProps this w) as Heq.
  unfold after in Heq |- *.
  destruct (componentWillReceiveProps nextProps (this, w)) as [[] [this' w']].
  cbn in Heq |- *. congruence.
Qed.

(** What a happening does to the world: the class stays, the calls are added
    at the end, and a dispatch among them carries the event options of the
    class. *)
Lemma happen_world h this w :
  cls (after (happen h) this w).2 = cls w
  ∧ ∃ calls, trace (after (happen h) this w).2 = trace w ++ calls
             ∧ Forall (λ o, o = eventOptions w) (dispatchOptions calls).
Proof.
  destruct h as [arguments|arguments|name event|nextProps|].
  - cbn [happen]. rewrite _handleFocus_eq. split; [reflexivity|].
    eexists. split; [reflexivity|]. destruct (onFocus (props this)); constructor.
  - cbn [happen]. rewrite _handleBlur_eq. split; [reflexivity|].
    eexists. split; [reflexivity|]. destruct (onBlur (props this)); constructor.
  - cbn [happen]. rewrite onKey_eq. split; [reflexivity|].
    eexists. split; [reflexivity|]. repeat constructor.
  - rewrite render_eq, componentWillReceiveProps_eq. cbn [snd].
    destruct (flag_set (_focused this)).
    + split; [reflexivity|]. eexists. split; [reflexivity|]. constructor.
    + split; [reflexivity|]. exists []. rewrite app_nil_r. split; [reflexivity|constructor].
  - cbn [happen]. unfold componentWillUnmount. rewrite _handleBlur_eq.
    split; [reflexivity|]. eexists. split; [reflexivity|].
    destruct (onBlur (props this)); constructor.
Qed.

Lemma step_world h pg :
  cls (world (step h pg)) = cls (world pg)
  ∧ ∃ calls, trace (world (step h pg)) = trace (world pg) ++ calls
             ∧ Forall (λ o, o = eventOptions (world pg)) (dispatchOptions calls).
Proof.
  unfold step. destruct (components pg !! h.1) as [this|].
  - apply happen_world.
  - split; [reflexivity|]. exists []. rewrite app_nil_r. split; [reflexivity|constructor].
Qed.

Lemma dispatchOptions_app (a b : list Call) :
  dispatchOptions (a ++ b) = dispatchOptions a ++ dispatchOptions b.
Proof. unfold dispatchOptions. apply omap_app. Qed.

(** No run of the components touches the class, and every dispatch of a
    run carries the event options of the class. *)
Lemma run_world hs pg :
  cls (world (run hs pg)) = cls (world pg)
  ∧ ∃ calls, trace (world (run hs pg)) = trace (world pg) ++ calls
             ∧ Forall (λ o, o = eventOptions (world pg)) (dispatchOptions calls).
Proof.
  revert pg. induction hs as [|h hs IH]; intros pg; cbn [run].
  - split; [reflexivity|]. exists []. rewrite app_nil_r. split; [reflexivity|constructor].
  - destruct (step_world h pg) as (Hcls & calls & Htrace & Hcalls).
    destruct (IH (step h pg)) as (Hcls' & calls' & Htrace' & Hcalls').
    split; [congruence|]. exists (calls ++ calls').
    split; [rewrite Htrace', Htrace, app_assoc; reflexivity|].
    rewrite dispatchOptions_app. apply Forall_app. split; [exact Hcalls|].
    unfold eventOptions in Hcalls' |- *. rewrite Hcls in Hcalls'. exact Hcalls'.
Qed.

(** C7.  The class is declared with the log level ['warn'].  And
    [configure] with a function as [ignoreEventsFilter] stores that
    function as the class's [ignoreEventsCondition]; from then on, whatever
    happens to whichever components, every key event of a mounted
    component makes one dispatch, a call of the manager's method for the
    event with the cached id and index and with event options whose
    [ignoreEventsCondition] is that function, and no dispatch of any run
    carries anything else. *)
Theorem configured_filter_goes_with_every_dispatch (f : JsFunction) (o : JsObject) w :
  get (Static.configuration Static.initial) "logLevel" = JsString "warn"
  ∧ ∃ w', configure (Static.ArgObject (<["ignoreEventsFilter" := JsFn f]> o)) w = Some w'
          ∧ Static.ignoreEventsCondition (cls w') = JsFn f
          ∧ ∀ hs pg, world pg = w' →
              (∃ calls, trace (world (run hs pg)) = trace w' ++ calls
                        ∧ Forall (λ eo, event_ignoreEventsCondition eo = JsFn f)
                            (dispatchOptions calls))
              ∧ ∀ i this name event, components (run hs pg) !! i = Some this →
                  let options := {| event_ignoreEventsCondition := JsFn f |} in
                  let w2 := world (run hs pg) in
                  let w3 := world (step (i, KeyEvent name event) (run hs pg)) in
                  trace w3
                  = trace w2
                      ++ [GetInstance (logLevel w2);
                          HandleKey name event (front this) (_componentIndex this) options]
                  ∧ manager w3
                    = (handleKey name event (front this) (_componentIndex this) options
                         (singleton w2)).2.
Proof.
  split; [vm_compute; reflexivity|].
  unfold configure, Static.configure. cbn [fmap option_fmap option_map].
  unfold get at 1 2. rewrite lookup_insert_eq. cbn [default truthy].
  eexists. split; [reflexivity|]. split; [reflexivity|].
  intros hs pg Hpg. destruct (run_world hs pg) as (Hcls & calls & Htrace & Hcalls). split.
  - exists calls. rewrite Htrace, Hpg. split; [reflexivity|].
    eapply Forall_impl; [exact Hcalls|]. intros eo ->. rewrite Hpg. reflexivity.
  - intros i this name event Hthis.
    unfold step. cbn [fst snd]. rewrite Hthis. cbn [world happen].
    rewrite onKey_eq. cbn [snd trace manager].
    assert (Hoptions : eventOptions (world (run hs pg))
                       = {| event_ignoreEventsCondition := JsFn f |}).
    { unfold eventOptions. rewrite Hcls, Hpg. reflexivity. }
    rewrite Hoptions. split; reflexivity.
Qed.

(** ** The cached ids over a run *)

(** The answer of the manager to a key event of component [i]. *)
Definition discards (i : nat) (name : KeyEventName) (event : KeyboardEvent) pg : bool :=
  match components pg !! i with
  | Some this =>
    (handleKey name event (front this) (_componentIndex this) (eventOptions (world pg))
       (singleton (world pg))).1
  | None => false
  end.

(** Over the run [hs] component [i] gains and loses no focus and is not
    told to discard an id; the other components do as they please. *)
Fixpoint undisturbed (i : nat) (hs : list (nat * Happening)) pg : bool :=
  match hs with
  | [] => true
  | h :: hs' =>
    (if bool_decide (h.1 = i) then
       match h.2 with
       | KeyEvent name event => negb (discards i name event pg)
       | Render _ => true
       | _ => false
       end
     else true)
    && undisturbed i hs' (step h pg)
  end.

Lemma step_other i h pg : h.1 ≠ i → components (step h pg) !! i = components pg !! i.
Proof.
  intros Hne. unfold step. destruct (components pg !! h.1); [|reflexivity].
  cbn [components]. apply list_lookup_insert_ne. exact Hne.
Qed.

Lemma step_self i h this pg :
  components pg !! i = Some this →
  components (step (i, h) pg) !! i = Some (after (happen h) this (world pg)).1.
Proof.
  intros Hthis. unfold step. cbn [fst snd]. rewrite Hthis. cbn [components].
  apply list_lookup_insert_eq. eapply lookup_lt_Some, Hthis.
Qed.

Lemma undisturbed_keeps_ids i hs : ∀ pg this,
  components pg !! i = Some this →
  undisturbed i hs pg = true →
  ∃ this', components (run hs pg) !! i = Some this'
           ∧ _focusTreeIds this' = _focusTreeIds this
           ∧ _componentIndex this' = _componentIndex this.
Proof.
  induction hs as [|[j h] hs IH]; intros pg this Hthis Hquiet; cbn [run].
  - exists this. auto.
  - cbn [undisturbed fst snd] in Hquiet. apply andb_true_iff in Hquiet as [Hh Hquiet].
    case_bool_decide as Hj.
    + subst j. pose proof (step_self i h this pg Hthis) as Hstep.
      destruct (IH _ _ Hstep Hquiet) as (this' & Hthis' & Hids & Hindex).
      exists this'. split; [exact Hthis'|]. rewrite Hids, Hindex.
      destruct h as [| |name event|nextProps|]; try discriminate Hh.
      * unfold discards in Hh. rewrite Hthis in Hh. apply negb_true_iff in Hh.
        cbn [happen]. rewrite onKey_eq, Hh. auto.
      * rewrite render_eq. auto.
    + apply (IH (step (j, h) pg) this); [|exact Hquiet].
      rewrite step_other; [exact Hthis|exact Hj].
Qed.

(** C1, as the code has it.  After a focus event of a component, every key
    event of it is reported to the manager with the component index that
    [handleFocus] returned, and with the id at the front of the cached
    ids, for as long as the component gains and loses no focus and is not
    told to discard an id.  The id [handleFocus] returned goes to the back
    of the cached ids: the id reported is the returned one when no id was
    cached at the time of the focus, and the oldest cached id otherwise. *)
Theorem key_events_report_front_of_cached_ids i this arguments hs name event pg :
  components pg !! i = Some this →
  let ids :=
    (handleFocus (keyMap (props this)) (handlers (props this)) (focusOptions (world pg))
       (singleton (world pg))).1 in
  let pg1 := step (i, Focus arguments) pg in
  undisturbed i hs pg1 = true →
  let pg2 := run hs pg1 in
  trace (world (step (i, KeyEvent name event) pg2))
  = trace (world pg2)
      ++ [GetInstance (logLevel (world pg2));
          HandleKey name event
            (Some match front this with Some oldest => oldest | None => ids.1 end)
            (Some ids.2) (eventOptions (world pg2))].
Proof.
  intros Hthis ids pg1 Hquiet pg2.
  pose proof (step_self i (Focus arguments) this pg Hthis) as Hfocus.
  fold pg1 in Hfocus. cbn [happen] in Hfocus. rewrite _handleFocus_eq in Hfocus.
  cbn [fst] in Hfocus. fold ids in Hfocus.
  destruct (undisturbed_keeps_ids i hs pg1 _ Hfocus Hquiet) as (this2 & Hthis2 & Hids & Hindex).
  fold pg2 in Hthis2. cbn [_focusTreeIds _componentIndex] in Hids, Hindex.
  unfold step. cbn [fst snd]. rewrite Hthis2. cbn [world happen].
  rewrite onKey_eq. cbn [snd trace]. unfold front at 1 2. rewrite Hids, Hindex.
  replace (pushed ids.1 this ≫= head)
    with (Some match front this with Some oldest => oldest | None => ids.1 end);
    [reflexivity|].
  unfold pushed, front. destruct (_focusTreeIds this) as [[|oldest rest]|]; reflexivity.
Qed.

End Runs.

(** ** The component on the manager of the specification *)

Lemma handleKey_dispatch name : handleKey name = Manager.dispatch name.
Proof. destruct name; reflexivity. Qed.

Lemma getInstance_invoked level m :
  Manager.invoked (Manager.getInstance level m) = Manager.invoked m.
Proof. unfold Manager.getInstance. destruct (Manager.logger m); reflexivity. Qed.

(** Steps 1 and 2 of the dispatch routine: without a focus tree id the
    routine changes nothing and returns false. *)
Lemma dispatch_without_focus_tree name event componentIndex options m :
  Manager.dispatch name event None componentIndex options m = (false, m).
Proof.
  unfold Manager.dispatch.
  destruct (call (event_ignoreEventsCondition options) event) as [[]|]; reflexivity.
Qed.

(** C8.  A key event of a component that never gained focus, whose cached
    ids are still unset: the dispatch routine is called with an undefined
    focus tree id, it returns false and leaves the manager as it is, so no
    handler is invoked, and the cached ids and the component index of the
    component are unchanged. *)
Theorem key_event_before_first_focus name event this (w : World Manager.t) :
  _focusTreeIds this = None →
  let answer :=
    Manager.dispatch name event None (_componentIndex this) (eventOptions w) (singleton w) in
  let r := after (onKey name event) this w in
  trace r.2
  = trace w ++ [GetInstance (logLevel w);
                HandleKey name event None (_componentIndex this) (eventOptions w)]
  ∧ answer.1 = false
  ∧ r.1 = this
  ∧ manager r.2 = singleton w
  ∧ Manager.invoked (manager r.2) = Manager.invoked (manager w).
Proof.
  intros Hunset answer r. subst answer r. rewrite onKey_eq, handleKey_dispatch.
  unfold front. rewrite Hunset. cbn [mbind option_bind].
  rewrite dispatch_without_focus_tree. cbn [fst snd trace manager].
  repeat split. apply getInstance_invoked.
Qed.

(** The scene of the shadowing property: the action "save" on Ctrl+S in
    both components, a handler each, and the three key events that make
    one Ctrl+S. *)
Definition ctrlS : KeySequencePattern :=
  Single {| combo_keys := ["ctrl"; "s"]; combo_event := None |}.

Definition saving (h : HandlerFunction) : Props :=
  {| keyMap := [("save", ctrlS)]; handlers := [("save", h)];
     onFocus := None; onBlur := None |}.

Definition keyOf (k : string) (time : N) : KeyboardEvent :=
  {| key := k; targetTagName := "DIV"; targetIsContentEditable := false; timeStamp := time |}.




(** ** Focus regained *)

(** The claim C1 as the specification has it, for component [i] of a page:
    the key event after a focus event is reported with the very ids that
    [handleFocus] returned for that focus event. *)
Definition reports_returned_ids `{KeyEventManager M} (i : nat) (arguments : list JsVal)
    (name : KeyEventName) (event : KeyboardEvent) (pg : Page M) : Prop :=
  ∀ this, components pg !! i = Some this →
    let ids :=
      (handleFocus (keyMap (props this)) (handlers (props this)) (focusOptions (world pg))
         (singleton (world pg))).1 in
    let pg1 := step (i, Focus arguments) pg in
    last (trace (world (step (i, KeyEvent name event) pg1)))
    = Some (HandleKey name event (Some ids.1) (Some ids.2) (eventOptions (world pg1))).

(** Two nested components gain focus and lose it again, the first of them
    while the other is still registered. *)
Definition blurred : Page Manager.t :=
  run [(0, Focus []); (1, Focus []); (0, Blur []); (1, Blur [])]
    {| components := [mount (saving (Handler "H1")); mount (saving (Handler "H2"))];
       world := boot Manager.empty |}.

(** C1, refuted as stated.  The first component was told to retain the id
    0 of the tree when it lost focus, and the tree is gone since.  On its
    next focus [handleFocus] returns the id 1 of a new tree, which goes
    behind the id 0 in the cached ids; the key event that follows is
    reported with the id 0. *)
Lemma stale_id_reported_after_refocus :
  let event := keyOf "s" 7 in
  let refocused := step (0, Focus []) blurred in
  (_focusTreeIds <$> components blurred) = [Some [0]; Some []]
  ∧ (Manager.handleFocus [("save", ctrlS)] [("save", Handler "H1")]
       (focusOptions (world blurred)) (singleton (world blurred))).1 = (1, 0)
  ∧ (_focusTreeIds <$> components refocused) = [Some [0; 1]; Some []]
  ∧ last (trace (world (step (0, KeyEvent keydown event) refocused)))
    = Some (HandleKey keydown event (Some 0) (Some 0) (eventOptions (world refocused)))
  ∧ ¬ reports_returned_ids 0 [] keydown event blurred.
Proof.
  intros event refocused.
  split; [vm_compute; reflexivity|]. split; [vm_compute; reflexivity|].
  split; [vm_compute; reflexivity|]. split; [vm_compute; reflexivity|].
  intros Hclaim.
  assert (Hthis : components blurred !! 0
                  = Some {| props := saving (Handler "H1"); _focusTreeIds := Some [0];
                            _componentIndex := Some 0; _focused := Some false |})
    by (vm_compute; reflexivity).
  specialize (Hclaim _ Hthis). vm_compute in Hclaim. discriminate Hclaim.
Qed.

(** ** The theorems at work *)

Lemma key_events_report_front_of_cached_ids_at_work :
  let this :=
    {| props := saving (Handler "H1"); _focusTreeIds := Some [0];
       _componentIndex := Some 0; _focused := Some false |} in
  let event := keyOf "s" 7 in
  let ids :=
    (handleFocus (keyMap (props this)) (handlers (props this)) (focusOptions (world blurred))
       (singleton (world blurred))).1 in
  let pg1 := step (0, Focus []) blurred in
  let pg2 := run [(1, Focus [])] pg1 in
  (trace (world (step (0, KeyEvent keydown event) pg2))
   = trace (world pg2)
       ++ [GetInstance (logLevel (world pg2));
           HandleKey keydown event
             (Some match front this with Some oldest => oldest | None => ids.1 end)
             (Some ids.2) (eventOptions (world pg2))])
  ∧ front this = Some 0
  ∧ ids = (1, 0).
Proof.
  split; [|split; vm_compute; reflexivity].
  exact (key_events_report_front_of_cached_ids 0
           {| props := saving (Handler "H1"); _focusTreeIds := Some [0];
              _componentIndex := Some 0; _focused := Some false |}
           [] [(1, Focus [])] keydown (keyOf "s" 7) blurred
           ltac:(vm_compute; reflexivity) ltac:(vm_compute; reflexivity)).
Defined.

Lemma key_event_before_first_focus_at_work :
  let this := mount (saving (Handler "H1")) in
  let event := keyOf "s" 1 in
  let r := after (onKey keypress event) this (boot Manager.empty) in
  trace r.2
  = [GetInstance (JsString "warn");
     HandleKey keypress event None None
       {| event_ignoreEventsCondition := JsFn HotKeys_ignoreEventsCondition |}]
  ∧ r.1 = this
  ∧ Manager.invoked (manager r.2) = [].
Proof.
  pose proof (key_event_before_first_focus keypress (keyOf "s" 1)
                (mount (saving (Handler "H1"))) (boot Manager.empty) eq_refl) as Hw.
  vm_compute in Hw |- *.
  destruct Hw as (Htrace & _ & Hthis & _ & Hinvoked).
  split; [exact Htrace|]. split; [exact Hthis|exact Hinvoked].
Defined.


(** * Further properties of the component *)

(** ** Leaving the page *)

Section Lifecycle.
Context `{KeyEventManager M}.
Implicit Types (this : HotKeys) (w : World M).

(** X1.  Unmounting a component that never gained focus still blurs it:
    the [onBlur] prop, when given, is called without arguments, and
    [handleBlur] is called with an undefined id and an undefined index.
    Whatever the manager answers, the cached ids and the index stay unset,
    and the focused flag is false afterwards. *)
Theorem unmount_before_first_focus (p : Props) w :
  after componentWillUnmount (mount p) w
  = ({| props := p; _focusTreeIds := None; _componentIndex := None;
        _focused := Some false |},
     {| cls := cls w;
        manager := (handleBlur None None (singleton w)).2;
        trace := trace w ++ propCall (onBlur p) []
                   ++ [GetInstance (logLevel w); HandleBlur None None] |}).
Proof.
  unfold componentWillUnmount. rewrite _handleBlur_eq. cbn.
  destruct (handleBlur None None (singleton w)).1; reflexivity.
Qed.

(** X2.  Focus and then blur of a component that caches no id (the ids are
    unset or empty): [handleBlur] is called with exactly the id and the
    index that [handleFocus] returned, whatever happened to the world in
    between.  If the manager answers false the cached ids are empty again,
    otherwise they hold the returned id; the index is kept in both cases,
    also when the id is gone. *)
Theorem focus_then_blur arguments arguments' this w w' :
  front this = None →
  let ids :=
    (handleFocus (keyMap (props this)) (handlers (props this)) (focusOptions w)
       (singleton w)).1 in
  let focused := (after (_handleFocus arguments) this w).1 in
  let answer := handleBlur (Some ids.1) (Some ids.2) (singleton w') in
  after (_handleBlur arguments') focused w'
  = ({| props := props this;
        _focusTreeIds := Some (if answer.1 then [ids.1] else []);
        _componentIndex := Some ids.2;
        _focused := Some false |},
     {| cls := cls w'; manager := answer.2;
        trace := trace w' ++ propCall (onBlur (props this)) arguments'
                   ++ [GetInstance (logLevel w'); HandleBlur (Some ids.1) (Some ids.2)] |}).
Proof.
  intros Hnone ids focused answer. subst focused. rewrite _handleFocus_eq. cbn [fst].
  fold ids. rewrite _handleBlur_eq.
  assert (Hpushed : pushed ids.1 this = Some [ids.1]).
  { unfold pushed. unfold front in Hnone.
    destruct (_focusTreeIds this) as [[|oldest rest]|]; [reflexivity|discriminate|reflexivity]. }
  unfold front, shifted. cbn [_focusTreeIds _componentIndex props]. rewrite Hpushed.
  cbn [mbind option_bind head fmap option_fmap option_map tail]. fold answer.
  destruct answer.1; reflexivity.
Qed.

End Lifecycle.

(** ** The cached ids are a queue *)

(** The ids a component caches, none when the field is unset. *)
Definition cached (this : HotKeys) : list FocusTreeId := default [] (_focusTreeIds this).

Section Queue.
Context `{KeyEventManager M}.
Implicit Types (this : HotKeys) (w : World M) (pg : Page M).

(** The ids [handleFocus] returns to component [i] over a run, in order. *)
Fixpoint received (i : nat) (hs : list (nat * Happening)) pg : list FocusTreeId :=
  match hs with
  | [] => []
  | h :: hs' =>
    match components pg !! i, h.2 with
    | Some this, Focus _ =>
      if bool_decide (h.1 = i) then
        [(handleFocus (keyMap (props this)) (handlers (props this)) (focusOptions (world pg))
            (singleton (world pg))).1.1]
      else []
    | _, _ => []
    end ++ received i hs' (step h pg)
  end.

(** The last gain or loss of focus of component [i] in a run, if any. *)
Fixpoint lastFocus (i : nat) (hs : list (nat * Happening)) (before : option bool) : option bool :=
  match hs with
  | [] => before
  | h :: hs' =>
    lastFocus i hs'
      (if bool_decide (h.1 = i) then
         match h.2 with
         | Focus _ => Some true
         | Blur _ | Unmount => Some false
         | KeyEvent _ _ | Render _ => before
         end
       else before)
  end.

(** What one happening does to the cached ids and to the focused flag. *)
Lemma happen_fields h this w :
  let this' := (after (happen h) this w).1 in
  match h with
  | Focus _ =>
    cached this'
    = cached this
        ++ [(handleFocus (keyMap (props this)) (handlers (props this)) (focusOptions w)
               (singleton w)).1.1]
    ∧ is_Some (_focusTreeIds this') ∧ _focused this' = Some true
  | Blur _ | Unmount =>
    cached this' `suffix_of` cached this
    ∧ (is_Some (_focusTreeIds this') ↔ is_Some (_focusTreeIds this))
    ∧ _focused this' = Some false
  | KeyEvent _ _ | Render _ =>
    cached this' `suffix_of` cached this
    ∧ (is_Some (_focusTreeIds this') ↔ is_Some (_focusTreeIds this))
    ∧ _focused this' = _focused this
  end.
Proof.
  assert (Hshift : ∀ (b : bool) this0,
    cached (if b then set_focusTreeIds (shifted this0) this0 else this0) `suffix_of` cached this0
    ∧ (is_Some (_focusTreeIds (if b then set_focusTreeIds (shifted this0) this0 else this0))
       ↔ is_Some (_focusTreeIds this0))).
  { intros [] this0; [|split; reflexivity]. unfold cached, shifted. cbn.
    destruct (_focusTreeIds this0) as [[|oldest rest]|]; cbn.
    - split; reflexivity.
    - split; [apply suffix_cons_r; reflexivity|]. split; eauto.
    - split; [reflexivity|]. split; intros []; discriminate. }
  destruct h as [arguments|arguments|name event|nextProps|]; cbn zeta.
  - cbn [happen]. rewrite _handleFocus_eq. cbn. unfold cached, pushed. cbn. eauto.
  - cbn [happen]. rewrite _handleBlur_eq. cbn [fst].
    destruct (Hshift (negb (handleBlur (front this) (_componentIndex this) (singleton w)).1) this)
      as [Hsuffix Hsome].
    destruct (handleBlur _ _ _).1; cbn in Hsuffix, Hsome |- *; auto.
  - cbn [happen]. rewrite onKey_eq. cbn [fst].
    destruct (Hshift (handleKey name event (front this) (_componentIndex this)
                        (eventOptions w) (singleton w)).1 this) as [Hsuffix Hsome].
    destruct (handleKey _ _ _ _ _ _).1; cbn in Hsuffix, Hsome |- *; auto.
  - rewrite render_eq. cbn. split; [reflexivity|]. split; reflexivity.
  - cbn [happen]. unfold componentWillUnmount. rewrite _handleBlur_eq. cbn [fst].
    destruct (Hshift (negb (handleBlur (front this) (_componentIndex this) (singleton w)).1) this)
      as [Hsuffix Hsome].
    destruct (handleBlur _ _ _).1; cbn in Hsuffix, Hsome |- *; auto.
Qed.

(** X3.  The cached ids of a component are a first-in, first-out queue of
    the ids the manager returned to it: after any run of the page they are
    what is left, at the back, of the ids cached before followed by the ids
    [handleFocus] returned since, in the order they were returned.  Ids
    leave at the front only, none is put in that the manager did not
    return, and once the field is set it stays set. *)
Theorem cached_ids_are_a_queue i hs : ∀ pg this,
  components pg !! i = Some this →
  ∃ this', components (run hs pg) !! i = Some this'
           ∧ cached this' `suffix_of` (cached this ++ received i hs pg)
           ∧ (is_Some (_focusTreeIds this) → is_Some (_focusTreeIds this')).
Proof.
  induction hs as [|[j h] hs IH]; intros pg this Hthis; cbn [run received].
  - exists this. rewrite app_nil_r. auto.
  - rewrite Hthis. cbn [fst snd]. case_bool_decide as Hj.
    + subst j. pose proof (step_self i h this pg Hthis) as Hstep.
      destruct (IH _ _ Hstep) as (this' & Hthis' & Hsuffix & Hsome).
      exists this'. split; [exact Hthis'|].
      pose proof (happen_fields h this (world pg)) as Hh. cbn zeta in Hh.
      destruct h as [arguments|arguments|name event|nextProps|].
      * destruct Hh as (Hids & Hset & _). rewrite Hids, <- app_assoc in Hsuffix. auto.
      * destruct Hh as (Hids & Hset & _). cbn [app]. split; [|tauto].
        etransitivity; [exact Hsuffix|]. apply suffix_app, Hids.
      * destruct Hh as (Hids & Hset & _). cbn [app]. split; [|tauto].
        etransitivity; [exact Hsuffix|]. apply suffix_app, Hids.
      * destruct Hh as (Hids & Hset & _). cbn [app]. split; [|tauto].
        etransitivity; [exact Hsuffix|]. apply suffix_app, Hids.
      * destruct Hh as (Hids & Hset & _). cbn [app]. split; [|tauto].
        etransitivity; [exact Hsuffix|]. apply suffix_app, Hids.
    + assert (Hnone : match h with Focus _ => [] | _ => [] end = @nil FocusTreeId)
        by (destruct h; reflexivity).
      rewrite Hnone. cbn [app]. apply IH. rewrite step_other; [exact Hthis|exact Hj].
Qed.

(** X4.  The focused flag of a component follows its focus and blur events
    alone: after any run of the page it is true when the last of them was a
    focus, false when it was a blur or the unmount, and what it was before
    when there was none.  Key events and new props never change it, and
    neither does anything that happens to another component. *)
Theorem focused_flag_follows_focus_and_blur i hs : ∀ pg this,
  components pg !! i = Some this →
  ∃ this', components (run hs pg) !! i = Some this'
           ∧ _focused this' = lastFocus i hs (_focused this).
Proof.
  induction hs as [|[j h] hs IH]; intros pg this Hthis; cbn [run lastFocus fst snd].
  - exists this. auto.
  - case_bool_decide as Hj.
    + subst j. pose proof (step_self i h this pg Hthis) as Hstep.
      destruct (IH _ _ Hstep) as (this' & Hthis' & Hflag).
      exists this'. split; [exact Hthis'|]. rewrite Hflag. f_equal.
      pose proof (happen_fields h this (world pg)) as Hh. cbn zeta in Hh.
      destruct h; destruct Hh as (_ & _ & Hh); exact Hh.
    + apply IH. rewrite step_other; [exact Hthis|exact Hj].
Qed.

End Queue.

(** ** What the calls carry *)

(** The settings of the class [c] that a call of the manager is made with:
    the level of the logger, the default key event of a registration, the
    predicate of a dispatch. *)
Definition carries (c : Static.t) (call : Call) : Prop :=
  match call with
  | GetInstance level => level = get (Static.configuration c) "logLevel"
  | HandleFocus _ _ options | UpdateComponent _ _ _ _ options =>
    options = {| focus_defaultKeyEvent := Static.defaultKeyEvent c |}
  | HandleKey _ _ _ _ options =>
    options = {| event_ignoreEventsCondition := Static.ignoreEventsCondition c |}
  | CallProp _ _ | HandleBlur _ _ => True
  end.

Definition isManagerCall (call : Call) : bool :=
  match call with
  | CallProp _ _ | GetInstance _ => false
  | _ => true
  end.

(** How many calls of a method of the manager there are among some
    calls. *)
Definition managerCalls (calls : list Call) : nat :=
  length (List.filter isManagerCall calls).

(** Every call of a method of the manager comes right after a
    [getInstance], and every [getInstance] is followed by one. *)
Fixpoint paired (calls : list Call) : bool :=
  match calls with
  | [] => true
  | CallProp _ _ :: rest => paired rest
  | GetInstance _ :: rest =>
    match rest with
    | call :: rest' => isManagerCall call && paired rest'
    | [] => false
    end
  | _ :: _ => false
  end.

(** The levels of the loggers and the options of the registrations among
    some calls. *)
Definition loggerLevels (calls : list Call) : list JsVal :=
  omap (λ c, match c with GetInstance level => Some level | _ => None end) calls.

Definition registrationOptions (calls : list Call) : list FocusOptions :=
  omap (λ c, match c with
             | HandleFocus _ _ o | UpdateComponent _ _ _ _ o => Some o
             | _ => None
             end) calls.

(** A call of a static method of the class. *)
Inductive ClassCall :=
  | Configure (arg : Static.ConfigureArg)
  | SetIgnoreEventsCondition (func : JsVal)
  | ResetIgnoreEventsCondition.

(** The class after the call; a call that throws leaves it as it was. *)
Definition classCall (c : ClassCall) (cls : Static.t) : Static.t :=
  match c with
  | Configure arg => default cls (Static.configure arg cls)
  | SetIgnoreEventsCondition func => Static.setIgnoreEventsCondition func cls
  | ResetIgnoreEventsCondition => Static.resetIgnoreEventsCondition cls
  end.

Lemma paired_app (a b : list Call) :
  paired a = true → paired b = true → paired (a ++ b) = true.
Proof.
  intros Ha Hb. remember (length a) as n eqn:Hn. revert a Ha Hn.
  induction n as [n IH] using lt_wf_ind. intros a Ha Hn.
  destruct a as [|c a]; [exact Hb|].
  destruct c; try discriminate Ha.
  - cbn in Ha |- *. apply (IH (length a)); [subst n; cbn; lia|exact Ha|reflexivity].
  - destruct a as [|c a]; [discriminate Ha|]. cbn in Ha |- *.
    apply andb_true_iff in Ha as [Hc Ha]. rewrite Hc. cbn.
    apply (IH (length a)); [subst n; cbn; lia|exact Ha|reflexivity].
Qed.

Section Calls.
Context `{KeyEventManager M}.
Implicit Types (this : HotKeys) (w : World M) (pg : Page M).

(** The calls one happening makes. *)
Lemma happen_calls h this w :
  cls (after (happen h) this w).2 = cls w
  ∧ ∃ calls, trace (after (happen h) this w).2 = trace w ++ calls
             ∧ Forall (carries (cls w)) calls
             ∧ paired calls = true
             ∧ (managerCalls calls ≤ 1)%nat.
Proof.
  destruct h as [arguments|arguments|name event|nextProps|].
  - cbn [happen]. rewrite _handleFocus_eq. split; [reflexivity|].
    eexists. split; [reflexivity|]. destruct (onFocus (props this)); cbn.
    all: split; [repeat constructor|]. all: split; [reflexivity|]. all: cbn; lia.
  - cbn [happen]. rewrite _handleBlur_eq. split; [reflexivity|].
    eexists. split; [reflexivity|]. destruct (onBlur (props this)); cbn.
    all: split; [repeat constructor|]. all: split; [reflexivity|]. all: cbn; lia.
  - cbn [happen]. rewrite onKey_eq. split; [reflexivity|].
    eexists. split; [reflexivity|]. split; [repeat constructor|].
    split; [reflexivity|]. cbn; lia.
  - rewrite render_eq, componentWillReceiveProps_eq. cbn [snd].
    destruct (flag_set (_focused this)).
    + split; [reflexivity|]. eexists. split; [reflexivity|]. split; [repeat constructor|].
      split; [reflexivity|]. cbn; lia.
    + split; [reflexivity|]. exists []. rewrite app_nil_r. split; [reflexivity|].
      split; [constructor|]. split; [reflexivity|]. cbn; lia.
  - cbn [happen]. unfold componentWillUnmount. rewrite _handleBlur_eq.
    split; [reflexivity|]. eexists. split; [reflexivity|].
    destruct (onBlur (props this)); cbn.
    all: split; [repeat constructor|]. all: split; [reflexivity|]. all: cbn; lia.
Qed.

(** The calls a run makes. *)
Lemma run_calls hs : ∀ pg,
  cls (world (run hs pg)) = cls (world pg)
  ∧ ∃ calls, trace (world (run hs pg)) = trace (world pg) ++ calls
             ∧ Forall (carries (cls (world pg))) calls
             ∧ paired calls = true
             ∧ (managerCalls calls ≤ length hs)%nat.
Proof.
  induction hs as [|h hs IH]; intros pg; cbn [run].
  - split; [reflexivity|]. exists []. rewrite app_nil_r. split; [reflexivity|].
    split; [constructor|]. split; [reflexivity|]. cbn; lia.
  - assert (Hstep : cls (world (step h pg)) = cls (world pg)
      ∧ ∃ calls, trace (world (step h pg)) = trace (world pg) ++ calls
                 ∧ Forall (carries (cls (world pg))) calls
                 ∧ paired calls = true
                 ∧ (managerCalls calls ≤ 1)%nat).
    { unfold step. destruct (components pg !! h.1) as [this|]; [apply happen_calls|].
      split; [reflexivity|]. exists []. rewrite app_nil_r. split; [reflexivity|].
      split; [constructor|]. split; [reflexivity|]. cbn; lia. }
    destruct Hstep as (Hcls & calls & Htrace & Hcarry & Hpaired & Hcount).
    destruct (IH (step h pg)) as (Hcls' & calls' & Htrace' & Hcarry' & Hpaired' & Hcount').
    split; [congruence|]. exists (calls ++ calls').
    split; [rewrite Htrace', Htrace, app_assoc; reflexivity|].
    split; [apply Forall_app; split; [exact Hcarry|rewrite <- Hcls; exact Hcarry']|].
    split; [apply paired_app; assumption|].
    unfold managerCalls in *. rewrite List.filter_app, length_app. cbn [length]. lia.
Qed.

(** X5.  No run of the components changes the class, and every call a run
    makes carries the settings of the class: each [getInstance] the
    configured log level, each [handleFocus] and [updateComponent] the
    default key event, each dispatch the [ignoreEventsCondition].  Every
    call of a method of the manager comes right after a [getInstance] of
    its own, and a happening makes one such call at most. *)
Theorem run_calls_carry_class_settings (hs : list (nat * Happening)) pg :
  cls (world (run hs pg)) = cls (world pg)
  ∧ ∃ calls, trace (world (run hs pg)) = trace (world pg) ++ calls
             ∧ Forall (carries (cls (world pg))) calls
             ∧ paired calls = true
             ∧ (managerCalls calls ≤ length hs)%nat.
Proof. apply run_calls. Qed.

Lemma configure_level (v : JsVal) (o : JsObject) (c : Static.t) :
  ∃ c', Static.configure (Static.ArgObject (<["logLevel" := v]> o)) c = Some c'
        ∧ get (Static.configuration c') "logLevel" = v.
Proof.
  unfold Static.configure. eexists. split; [reflexivity|].
  cbn [Static.configuration]. unfold get at 1. unfold spread.
  rewrite lookup_union, lookup_insert_eq.
  destruct (truthy _); cbn [Static.configuration Static.setIgnoreEventsCondition];
    destruct (Static.configuration c !! "logLevel"); reflexivity.
Qed.

(** X6.  A log level given to [configure] is the level of the logger of
    every later call of the manager, whatever the value is, a level or
    not: after [configure({..., logLevel: v})] every [getInstance] of every
    run is made with [v]. *)
Theorem configured_logLevel_goes_with_every_logger (v : JsVal) (o : JsObject) w :
  ∃ w', configure (Static.ArgObject (<["logLevel" := v]> o)) w = Some w'
        ∧ ∀ hs pg, world pg = w' →
            ∃ calls, trace (world (run hs pg)) = trace w' ++ calls
                     ∧ Forall (λ level, level = v) (loggerLevels calls).
Proof.
  destruct (configure_level v o (cls w)) as (c' & Hc' & Hlevel).
  unfold configure. rewrite Hc'. cbn [fmap option_fmap option_map].
  eexists. split; [reflexivity|]. intros hs pg Hpg.
  destruct (run_calls hs pg) as (_ & calls & Htrace & Hcarry & _).
  exists calls. rewrite Htrace, Hpg. split; [reflexivity|].
  rewrite Hpg in Hcarry. cbn [cls] in Hcarry. clear Htrace.
  induction Hcarry as [|call calls Hcall _ IH]; [constructor|].
  destruct call; cbn in Hcall |- *; try exact IH.
  constructor; [|exact IH]. rewrite Hcall. exact Hlevel.
Qed.

(** X7.  Nothing the class offers changes the default key event: after any
    calls of [configure], [setIgnoreEventsCondition] and
    [resetIgnoreEventsCondition], also a [configure] with a
    [defaultKeyEvent] property, it is ['keypress'], and every registration
    and every update of a registration of every run is made with it. *)
Theorem default_key_event_is_keypress (cs : list ClassCall) (components0 : list HotKeys)
    (m : M) (calls0 : list Call) (hs : list (nat * Happening)) :
  let c := foldl (λ cls call, classCall call cls) Static.initial cs in
  let pg := {| components := components0;
               world := {| cls := c; manager := m; trace := calls0 |} |} in
  Static.defaultKeyEvent c = keypress
  ∧ ∃ calls, trace (world (run hs pg)) = calls0 ++ calls
             ∧ Forall (λ o, o = {| focus_defaultKeyEvent := keypress |})
                 (registrationOptions calls).
Proof.
  intros c pg.
  assert (Hc : Static.defaultKeyEvent c = keypress).
  { subst c. generalize Static.initial (eq_refl : Static.defaultKeyEvent Static.initial = keypress).
    induction cs as [|call cs IH]; intros cls0 Hcls0; [exact Hcls0|].
    cbn [foldl]. apply IH. destruct call as [[| |o]| |]; cbn; try exact Hcls0.
    destruct (truthy _); exact Hcls0. }
  split; [exact Hc|].
  destruct (run_calls hs pg) as (_ & calls & Htrace & Hcarry & _).
  exists calls. split; [exact Htrace|]. cbn [world cls pg] in Hcarry. clear Htrace.
  induction Hcarry as [|call calls Hcall _ IH]; [constructor|].
  destruct call; cbn in Hcall |- *; try exact IH.
  all: constructor; [|exact IH]. all: rewrite Hcall, Hc; reflexivity.
Qed.

End Calls.

(** ** More on [configure] *)

(** X8.  [configure] is idempotent, and it changes nothing when it is given
    nothing: a second call with the same object leaves the class as the
    first call left it, and a call without argument or with an empty
    object returns the class as it was. *)
Theorem configure_twice_is_once (o : JsObject) (cls : Static.t) :
  Static.configure (Static.ArgObject o) cls ≫= Static.configure (Static.ArgObject o)
  = Static.configure (Static.ArgObject o) cls
  ∧ Static.configure Static.ArgOmitted cls = Some cls
  ∧ Static.configure (Static.ArgObject ∅) cls = Some cls.
Proof.
  assert (Hnothing : Static.configure (Static.ArgObject ∅) cls = Some cls).
  { unfold Static.configure, spread, get. rewrite lookup_empty. cbn.
    rewrite (left_id_L ∅ (∪)). destruct cls; reflexivity. }
  split; [|split; [exact Hnothing|exact Hnothing]].
  unfold Static.configure. cbn [mbind option_bind]. f_equal.
  destruct (truthy (get o "ignoreEventsFilter")); cbn; unfold spread;
    rewrite (assoc_L (∪)), (idemp_L (∪)); reflexivity.
Qed.

(** X9.  [configure] cannot take a filter away.  A falsy
    [ignoreEventsFilter] (absent, [undefined], [null], [false], ...) leaves
    the [ignoreEventsCondition] of the class as it was, while a value given
    for the property is stored in the configuration all the same: the
    stored configuration and the predicate in use can differ. *)
Theorem configure_keeps_condition_on_falsy_filter (o : JsObject) (cls : Static.t) :
  truthy (get o "ignoreEventsFilter") = false →
  ∃ cls', Static.configure (Static.ArgObject o) cls = Some cls'
          ∧ Static.ignoreEventsCondition cls' = Static.ignoreEventsCondition cls
          ∧ Static.configuration cls' !! "ignoreEventsFilter"
            = match o !! "ignoreEventsFilter" with
              | Some v => Some v
              | None => Static.configuration cls !! "ignoreEventsFilter"
              end.
Proof.
  intros Hfalsy. unfold Static.configure. rewrite Hfalsy.
  eexists. split; [reflexivity|]. split; [reflexivity|].
  cbn [Static.configuration]. unfold spread. rewrite lookup_union.
  destruct (o !! "ignoreEventsFilter"), (Static.configuration cls !! "ignoreEventsFilter");
    reflexivity.
Qed.

(** X10.  [configure] does not check that the filter is a function: any
    truthy [ignoreEventsFilter] becomes the [ignoreEventsCondition] of the
    class.  When it is not a function, a later call of
    [HotKeys.ignoreEventsCondition(event)] throws, and the dispatches are
    handed the value as it is. *)
Theorem configure_installs_any_truthy_filter (v : JsVal) (o : JsObject) (cls : Static.t)
    (event : KeyboardEvent) :
  truthy v = true →
  (∀ f, v ≠ JsFn f) →
  ∃ cls', Static.configure (Static.ArgObject (<["ignoreEventsFilter" := v]> o)) cls = Some cls'
          ∧ Static.ignoreEventsCondition cls' = v
          ∧ Static.call_ignoreEventsCondition cls' event = None.
Proof.
  intros Htruthy Hvalue. unfold Static.configure.
  assert (Hfilter : get (<["ignoreEventsFilter" := v]> o) "ignoreEventsFilter" = v)
    by (unfold get; rewrite lookup_insert_eq; reflexivity).
  rewrite Hfilter, Htruthy.
  eexists. split; [reflexivity|]. split; [reflexivity|].
  unfold Static.call_ignoreEventsCondition. cbn.
  destruct v; try reflexivity. destruct (Hvalue f eq_refl).
Qed.

(** ** [render] *)

(** The methods the constructor binds to the instance. *)
Inductive BoundMethod :=
  | bound_handleFocus
  | bound_handleBlur
  | bound_handleKeyDown
  | bound_handleKeyPress
  | bound_handleKeyUp.

(** A prop of the element [render] returns: a value the component was
    given, handed on, or a bound method of the component. *)
Inductive ElementProp (V : Type) :=
  | Given (v : V)
  | Bound (m : BoundMethod).
Arguments Given {V} _.
Arguments Bound {V} _.

(** The [FocusTrap] element: its props and its children. *)
Record FocusTrap (V : Type) := {
  trap_props : gmap string (ElementProp V);
  trap_children : option V;
}.
Arguments trap_props {V} _.
Arguments trap_children {V} _.

(** [render], on [this.props] as an object with values of any kind: the
    props the component keeps for itself are left out, the rest is spread
    into the element, and the five listeners are set after the spread. *)
Definition render {V} (props : gmap string V) : FocusTrap V :=
  let children := props !! "children" in
  let props' :=
    delete "children" (delete "attach" (delete "focused" (delete "handlers"
      (delete "keyMap" props)))) in
  {| trap_props :=
       <["onKeyUp" := Bound bound_handleKeyUp]>
         (<["onKeyPress" := Bound bound_handleKeyPress]>
            (<["onKeyDown" := Bound bound_handleKeyDown]>
               (<["onBlur" := Bound bound_handleBlur]>
                  (<["onFocus" := Bound bound_handleFocus]> (Given <$> props')))));
     trap_children := children |}.

(** The listener [render] sets under a name. *)
Definition listener (k : string) : option BoundMethod :=
  if String.eqb k "onFocus" then Some bound_handleFocus
  else if String.eqb k "onBlur" then Some bound_handleBlur
  else if String.eqb k "onKeyDown" then Some bound_handleKeyDown
  else if String.eqb k "onKeyPress" then Some bound_handleKeyPress
  else if String.eqb k "onKeyUp" then Some bound_handleKeyUp
  else None.

(** X11.  The props of the element [render] returns: under the names of
    the five listeners the bound methods of the component, whatever the
    component was given under these names (an [onKeyDown], [onKeyPress] or
    [onKeyUp] prop of the user is dropped); nothing under [keyMap],
    [handlers], [focused], [attach] and [children]; and every other prop
    as it was given.  The children are handed on as they are. *)
Theorem render_hands_on_the_other_props {V} (props : gmap string V) (k : string) :
  trap_props (render props) !! k
  = match listener k with
    | Some m => Some (Bound m)
    | None =>
      if bool_decide (k ∈ ["keyMap"; "handlers"; "focused"; "attach"; "children"])
      then None
      else Given <$> props !! k
    end
  ∧ trap_children (render props) = props !! "children".
Proof.
  split; [|reflexivity]. unfold render, listener. cbn [trap_props].
  repeat match goal with
         | |- context [String.eqb k ?s] =>
           destruct (String.eqb_spec k s) as [->|?];
           [rewrite ?lookup_insert_ne, ?lookup_insert_eq by discriminate; reflexivity|]
         end.
  rewrite !lookup_insert_ne by congruence.
  case_bool_decide as Hk.
  - repeat (apply elem_of_cons in Hk as [->|Hk];
            [rewrite lookup_fmap, ?lookup_delete_ne, ?lookup_delete_eq by discriminate;
             reflexivity|]).
    apply elem_of_nil in Hk. destruct Hk.
  - rewrite lookup_fmap, !lookup_delete_ne; [reflexivity|..];
      intros <-; apply Hk; set_solver.
Qed.

(** ** The further properties at work *)

Lemma focus_then_blur_at_work :
  let this := mount (saving (Handler "H1")) in
  let w := boot Manager.empty in
  let ids :=
    (handleFocus (keyMap (props this)) (handlers (props this)) (focusOptions w)
       (singleton w)).1 in
  let focused := (after (_handleFocus []) this w).1 in
  let answer := handleBlur (Some ids.1) (Some ids.2) (singleton w) in
  after (_handleBlur []) focused w
  = ({| props := props this;
        _focusTreeIds := Some (if answer.1 then [ids.1] else []);
        _componentIndex := Some ids.2;
        _focused := Some false |},
     {| cls := cls w; manager := answer.2;
        trace := trace w ++ propCall (onBlur (props this)) []
                   ++ [GetInstance (logLevel w); HandleBlur (Some ids.1) (Some ids.2)] |}).
Proof.
  exact (focus_then_blur [] [] (mount (saving (Handler "H1"))) (boot Manager.empty)
           (boot Manager.empty) eq_refl).
Defined.

Lemma cached_ids_are_a_queue_at_work :
  let this :=
    {| props := saving (Handler "H1"); _focusTreeIds := Some [0];
       _componentIndex := Some 0; _focused := Some false |} in
  let hs := [(0, Focus []); (1, Focus []); (0, KeyEvent keydown (keyOf "s" 7))] in
  ∃ this', components (run hs blurred) !! 0 = Some this'
           ∧ cached this' `suffix_of` (cached this ++ received 0 hs blurred)
           ∧ (is_Some (_focusTreeIds this) → is_Some (_focusTreeIds this')).
Proof.
  exact (cached_ids_are_a_queue 0
           [(0, Focus []); (1, Focus []); (0, KeyEvent keydown (keyOf "s" 7))] blurred
           {| props := saving (Handler "H1"); _focusTreeIds := Some [0];
              _componentIndex := Some 0; _focused := Some false |}
           ltac:(vm_compute; reflexivity)).
Defined.

Lemma focused_flag_follows_focus_and_blur_at_work :
  let this :=
    {| props := saving (Handler "H1"); _focusTreeIds := Some [0];
       _componentIndex := Some 0; _focused := Some false |} in
  let hs := [(0, Focus []); (1, Focus []); (0, KeyEvent keydown (keyOf "s" 7))] in
  ∃ this', components (run hs blurred) !! 0 = Some this'
           ∧ _focused this' = lastFocus 0 hs (_focused this).
Proof.
  exact (focused_flag_follows_focus_and_blur 0
           [(0, Focus []); (1, Focus []); (0, KeyEvent keydown (keyOf "s" 7))] blurred
           {| props := saving (Handler "H1"); _focusTreeIds := Some [0];
              _componentIndex := Some 0; _focused := Some false |}
           ltac:(vm_compute; reflexivity)).
Defined.

(** [{ ignoreEventsFilter: null }], and the class after a filter was set. *)
Definition nullFilter : JsObject := {[ "ignoreEventsFilter" := JsNull ]}.

Definition filtering : Static.t :=
  Static.setIgnoreEventsCondition (JsFn (UserFunction (λ _, true))) Static.initial.

Lemma configure_keeps_condition_on_falsy_filter_at_work :
  ∃ cls', Static.configure (Static.ArgObject nullFilter) filtering = Some cls'
          ∧ Static.ignoreEventsCondition cls' = Static.ignoreEventsCondition filtering
          ∧ Static.configuration cls' !! "ignoreEventsFilter"
            = match nullFilter !! "ignoreEventsFilter" with
              | Some v => Some v
              | None => Static.configuration filtering !! "ignoreEventsFilter"
              end.
Proof.
  refine (configure_keeps_condition_on_falsy_filter nullFilter filtering _).
  vm_compute. reflexivity.
Defined.

Lemma configure_installs_any_truthy_filter_at_work :
  ∃ cls', Static.configure
            (Static.ArgObject (<["ignoreEventsFilter" := JsString "input"]> ∅)) Static.initial
          = Some cls'
          ∧ Static.ignoreEventsCondition cls' = JsString "input"
          ∧ Static.call_ignoreEventsCondition cls' (keyOf "s" 1) = None.
Proof.
  exact (configure_installs_any_truthy_filter (JsString "input") ∅ Static.initial
           (keyOf "s" 1) eq_refl ltac:(discriminate)).
Defined.
